(** * RegRadar: persisted layout, browser pages and the ingestion contract

    The development follows the repository file by file:

    - [Sql] and [Schema] embed [db/init/01_schema.sql]: the five tables
      with their column types and column constraints, and the meaning of
      those constraints on a store (PostgreSQL: types, NOT NULL, UNIQUE,
      PRIMARY KEY, REFERENCES, SERIAL and DEFAULT NOW()).
    - [Js] and [Browser] give the fragment of JavaScript the pages use:
      parsed JSON values, truthiness, property reads, [localStorage],
      and the observable actions of an effect.
    - [LoginPage], [HomePage], [HomePage_part_000] and [ImpactPage] embed
      [frontend/app/login/page.tsx], [frontend/app/page.tsx] and
      [unnamed/part_000].
    - [Pipeline] holds the change detector, which is not among the source
      files and is modelled from the specification. *)

From Stdlib Require Import ZArith List Bool Lia Floats.SpecFloat.
From stdpp Require Import base option list strings gmap fin_maps.

Local Open Scope string_scope.
Local Open Scope Z_scope.
Local Open Scope list_scope.

(** ** SQL: the fragment of the data definition language the schema uses *)

Module Sql.

(** Column types.  [ARRAY] is PostgreSQL's [t[]]; the schema never uses
    it, it is here so that "a sequence of strings" is a storable value. *)
Inductive sqltype : Type :=
| SERIAL
| INT
| TEXT
| FLOAT
| TIMESTAMP
| ARRAY (elem : sqltype).

(** Column constraints, as they are written after the column type. *)
Inductive constraint : Type :=
| PRIMARY_KEY
| UNIQUE
| NOT_NULL
| REFERENCES (tbl col : string)
| DEFAULT_NOW.

Record column : Type := Column
  { col_name : string;
    col_type : sqltype;
    col_constraints : list constraint }.

Record table : Type := Table
  { tbl_name : string;
    tbl_columns : list column }.

(** Stored values.  [VInt] is a 4-byte integer, [VFloat] a binary64
    number, [VTime] a timestamp counted in microseconds. *)
#[warnings="-register-all"] Inductive value : Type :=
| VNull
| VInt (n : Z)
| VText (s : string)
| VFloat (f : spec_float)
| VTime (t : Z)
| VArray (elems : list value).

(** A row is the tuple of its cells, in the order of the table's
    columns. *)
Definition row : Type := list value.

(** A store: the rows of each table, in insertion order, and the last
    value handed out by the sequence behind each SERIAL column (keyed
    by table name; every table of the schema has one SERIAL column). *)
Record db : Type := Db
  { db_rows : gmap string (list row);
    db_seq : gmap string Z }.

Definition empty_db : db := Db ∅ ∅.

Definition is_null (v : value) : bool :=
  match v with VNull => true | _ => false end.

Definition int4_min : Z := -2147483648.
Definition int4_max : Z := 2147483647.

Definition in_int4 (n : Z) : bool := (int4_min <=? n) && (n <=? int4_max).

(** The type of a stored value.  NULL inhabits every type; nullability is
    a separate constraint.  PostgreSQL converts what a statement supplies
    to the column's type before it stores or compares it (assignment
    cast); [has_type] describes the values after that conversion, and
    the statements below take such values. *)
Fixpoint has_type (v : value) (t : sqltype) {struct v} : bool :=
  match v, t with
  | VNull, _ => true
  | VInt n, SERIAL => in_int4 n
  | VInt n, INT => in_int4 n
  | VText _, TEXT => true
  | VFloat _, FLOAT => true
  | VTime _, TIMESTAMP => true
  | VArray l, ARRAY t' => forallb (fun x => has_type x t') l
  | _, _ => false
  end.

Definition spec_float_eqb (a b : spec_float) : bool :=
  match a, b with
  | S754_zero s, S754_zero s' => Bool.eqb s s'
  | S754_infinity s, S754_infinity s' => Bool.eqb s s'
  | S754_nan, S754_nan => true
  | S754_finite s m e, S754_finite s' m' e' =>
      Bool.eqb s s' && Pos.eqb m m' && Z.eqb e e'
  | _, _ => false
  end.

(** Equality of stored values as the key comparisons need it.  The key
    columns of the schema are integers and text, where SQL equality of
    two non-null values is equality of the values; on floats it is finer
    than SQL's [=] (which equates the two zeros), and it is used on
    integer and text cells only. *)
Fixpoint value_eqb (a b : value) {struct a} : bool :=
  match a, b with
  | VNull, VNull => true
  | VInt x, VInt y => Z.eqb x y
  | VText x, VText y => String.eqb x y
  | VFloat x, VFloat y => spec_float_eqb x y
  | VTime x, VTime y => Z.eqb x y
  | VArray l, VArray m =>
      (fix go (l m : list value) {struct l} : bool :=
         match l, m with
         | [], [] => true
         | x :: l', y :: m' => value_eqb x y && go l' m'
         | _, _ => false
         end) l m
  | _, _ => false
  end.

Definition constraint_eqb (a b : constraint) : bool :=
  match a, b with
  | PRIMARY_KEY, PRIMARY_KEY => true
  | UNIQUE, UNIQUE => true
  | NOT_NULL, NOT_NULL => true
  | REFERENCES t c, REFERENCES t' c' => String.eqb t t' && String.eqb c c'
  | DEFAULT_NOW, DEFAULT_NOW => true
  | _, _ => false
  end.

Definition has_constraint (k : constraint) (c : column) : bool :=
  existsb (constraint_eqb k) (col_constraints c).

(** PRIMARY KEY is UNIQUE together with NOT NULL. *)
Definition is_not_null (c : column) : bool :=
  has_constraint PRIMARY_KEY c || has_constraint NOT_NULL c.

Definition is_unique (c : column) : bool :=
  has_constraint PRIMARY_KEY c || has_constraint UNIQUE c.

Definition references (c : column) : list (string * string) :=
  flat_map (fun k => match k with REFERENCES t x => [(t, x)] | _ => [] end)
           (col_constraints c).

Definition find_table (sch : list table) (t : string) : option table :=
  find (fun tb => String.eqb (tbl_name tb) t) sch.

Fixpoint col_index (cs : list column) (c : string) : option nat :=
  match cs with
  | [] => None
  | x :: cs' =>
      if String.eqb (col_name x) c then Some O
      else S <$> col_index cs' c
  end.

Definition find_column (tb : table) (c : string) : option column :=
  find (fun x => String.eqb (col_name x) c) (tbl_columns tb).

(** The cell of row [r] of table [tb] under column [c]. *)
Definition cell (tb : table) (r : row) (c : string) : value :=
  match col_index (tbl_columns tb) c with
  | Some i => nth i r VNull
  | None => VNull
  end.

Definition rows_of (d : db) (t : string) : list row :=
  default [] (db_rows d !! t).

(** *** What the constraints demand of a store *)

Definition cell_ok (c : column) (v : value) : bool :=
  has_type v (col_type c) && (negb (is_not_null c) || negb (is_null v)).

Fixpoint row_ok (cs : list column) (r : row) : bool :=
  match cs, r with
  | [], [] => true
  | c :: cs', v :: r' => cell_ok c v && row_ok cs' r'
  | _, _ => false
  end.

(** UNIQUE: no two rows carry the same non-null value. *)
Fixpoint unique_values (l : list value) : bool :=
  match l with
  | [] => true
  | v :: l' => (is_null v || negb (existsb (value_eqb v) l')) && unique_values l'
  end.

Definition column_values (tb : table) (rs : list row) (c : string) : list value :=
  map (fun r => cell tb r c) rs.

(** REFERENCES t(x): a non-null value occurs in column [x] of [t]. *)
Definition reference_ok (sch : list table) (d : db) (target : string * string)
           (v : value) : bool :=
  is_null v ||
  match find_table sch (fst target) with
  | Some tb' =>
      existsb (value_eqb v) (column_values tb' (rows_of d (fst target)) (snd target))
  | None => false
  end.

Definition column_ok (sch : list table) (d : db) (tb : table) (c : column) : bool :=
  let vs := column_values tb (rows_of d (tbl_name tb)) (col_name c) in
  (negb (is_unique c) || unique_values vs)
  && forallb (fun target => forallb (reference_ok sch d target) vs) (references c).

Definition table_ok (sch : list table) (d : db) (tb : table) : bool :=
  forallb (row_ok (tbl_columns tb)) (rows_of d (tbl_name tb))
  && forallb (column_ok sch d tb) (tbl_columns tb).

(** The store satisfies every constraint the schema declares. *)
Definition satisfies (sch : list table) (d : db) : bool :=
  forallb (table_ok sch d) sch.

(** *** Statements *)

Inductive sql_error : Type :=
| undefined_table
| undefined_column
| duplicate_column
| constraint_violation.

Definition next_serial (d : db) (t : string) : Z :=
  default 0 (db_seq d !! t) + 1.

(** The value a column takes in [INSERT INTO t (cols) VALUES (vals)]:
    the one given for it, otherwise its default: the next sequence
    value for SERIAL, the statement's time under DEFAULT NOW(), NULL
    otherwise. *)
Definition insert_cell (d : db) (t : string) (now : Z)
           (given : list (string * value)) (c : column) : value :=
  match find (fun kv => String.eqb (fst kv) (col_name c)) given with
  | Some kv => snd kv
  | None =>
      match col_type c with
      | SERIAL => VInt (next_serial d t)
      | _ => if has_constraint DEFAULT_NOW c then VTime now else VNull
      end
  end.

Definition uses_serial (given : list (string * value)) (tb : table) : bool :=
  existsb (fun c => match col_type c with
                    | SERIAL => negb (existsb (fun kv => String.eqb (fst kv) (col_name c)) given)
                    | _ => false
                    end) (tbl_columns tb).

Definition add_row (d : db) (tb : table) (now : Z) (given : list (string * value)) : db :=
  let t := tbl_name tb in
  let r := map (insert_cell d t now given) (tbl_columns tb) in
  {| db_rows := <[t := rows_of d t ++ [r]]> (db_rows d);
     db_seq := if uses_serial given tb then <[t := next_serial d t]> (db_seq d)
               else db_seq d |}.

(** The column list of an [INSERT] names columns of the table, each at
    most once. *)
Definition columns_exist (tb : table) (given : list (string * value)) : bool :=
  forallb (fun kv => bool_decide (is_Some (col_index (tbl_columns tb) (fst kv)))) given.

Definition columns_distinct (given : list (string * value)) : bool :=
  bool_decide (NoDup (map fst given)).

Inductive outcome : Type :=
| done_ok
| failed (e : sql_error).

(** [INSERT]: the row is added and the constraints are checked on the
    resulting store.  A violation leaves the rows as they were; a
    sequence value drawn for the row is spent all the same. *)
Definition insert (sch : list table) (t : string) (now : Z)
           (given : list (string * value)) (d : db) : outcome * db :=
  match find_table sch t with
  | None => (failed undefined_table, d)
  | Some tb =>
      if negb (columns_exist tb given) then (failed undefined_column, d)
      else if negb (columns_distinct given) then (failed duplicate_column, d)
      else
        let d' := add_row d tb now given in
        if satisfies sch d' then (done_ok, d')
        else (failed constraint_violation,
              {| db_rows := db_rows d; db_seq := db_seq d' |})
  end.

(** [DELETE FROM t WHERE c = v], for [v] NULL or a value of the type of
    [c], an integer or text column; a comparison with NULL selects no
    row, and a row still referenced elsewhere blocks the statement (NO
    ACTION, the default of REFERENCES). *)
Definition delete_where (sch : list table) (t c : string) (v : value) (d : db)
  : outcome * db :=
  match find_table sch t with
  | None => (failed undefined_table, d)
  | Some tb =>
      match col_index (tbl_columns tb) c with
      | None => (failed undefined_column, d)
      | Some _ =>
          let keep := List.filter (fun r => is_null v || negb (value_eqb (cell tb r c) v))
                                  (rows_of d t) in
          let d' := {| db_rows := <[t := keep]> (db_rows d); db_seq := db_seq d |} in
          if satisfies sch d' then (done_ok, d')
          else (failed constraint_violation, d)
      end
  end.

(** Whether a stored value is an ordered sequence of strings. *)
Definition is_text_sequence (v : value) : bool :=
  match v with
  | VArray l => forallb (fun x => match x with VText _ => true | _ => false end) l
  | _ => false
  end.

(** All foreign keys of a schema: (table, column, referenced table,
    referenced column). *)
Definition foreign_keys (sch : list table) : list (string * string * (string * string)) :=
  flat_map (fun tb =>
    flat_map (fun c => map (fun target => (tbl_name tb, col_name c, target)) (references c))
             (tbl_columns tb)) sch.

(** The columns of a table that hold integers. *)
Definition integer_columns (tb : table) : list string :=
  map col_name
      (List.filter (fun c => match col_type c with
                             | SERIAL | INT => true
                             | _ => false
                             end) (tbl_columns tb)).

Definition unique_columns (tb : table) : list string :=
  map col_name (List.filter is_unique (tbl_columns tb)).

End Sql.

(** ** db/init/01_schema.sql *)

Module Schema.
Import Sql.

Definition source : table :=
  Table "source"
    [ Column "id" SERIAL [PRIMARY_KEY];
      Column "url" TEXT [NOT_NULL] ].

Definition document : table :=
  Table "document"
    [ Column "id" SERIAL [PRIMARY_KEY];
      Column "external_id" TEXT [UNIQUE; NOT_NULL];
      Column "source_id" INT [REFERENCES "source" "id"];
      Column "created_at" TIMESTAMP [DEFAULT_NOW] ].

Definition document_version : table :=
  Table "document_version"
    [ Column "id" SERIAL [PRIMARY_KEY];
      Column "document_id" INT [REFERENCES "document" "id"];
      Column "content_hash" TEXT [NOT_NULL];
      Column "content" TEXT [];
      Column "created_at" TIMESTAMP [DEFAULT_NOW] ].

Definition change_event : table :=
  Table "change_event"
    [ Column "id" SERIAL [PRIMARY_KEY];
      Column "document_version_id" INT [REFERENCES "document_version" "id"];
      Column "prev_version_id" INT [REFERENCES "document_version" "id"];
      Column "diff" TEXT [];
      Column "created_at" TIMESTAMP [DEFAULT_NOW] ].

Definition impact_assessment : table :=
  Table "impact_assessment"
    [ Column "id" SERIAL [PRIMARY_KEY];
      Column "document_version_id" INT [REFERENCES "document_version" "id"];
      Column "summary" TEXT [];
      Column "actions" TEXT [];
      Column "score" FLOAT [];
      Column "created_at" TIMESTAMP [DEFAULT_NOW] ].

Definition schema : list table :=
  [ source; document; document_version; change_event; impact_assessment ].

End Schema.

(** ** JavaScript values as the pages see them *)

Module Js.

(** What [res.json()] resolves to.  Numbers are binary64; [JObj] lists
    the own properties of the parsed object (their names are pairwise
    distinct: of a repeated key the parser keeps the last value). *)
#[warnings="-register-all"] Inductive json : Type :=
| JNull
| JBool (b : bool)
| JNum (x : spec_float)
| JStr (s : string)
| JArr (elems : list json)
| JObj (fields : list (string * json)).

(** A value read in the program: a parsed value, or [undefined]. *)
Definition jsval : Type := option json.
Definition undefined : jsval := None.

(** ToBoolean. *)
Definition truthy (v : jsval) : bool :=
  match v with
  | None => false
  | Some JNull => false
  | Some (JBool b) => b
  | Some (JNum (S754_zero _)) => false
  | Some (JNum S754_nan) => false
  | Some (JNum _) => true
  | Some (JStr s) => negb (String.eqb s "")
  | Some (JArr _) => true
  | Some (JObj _) => true
  end.

(** [a || b] *)
Definition or_else (a : jsval) (b : json) : json :=
  match a with
  | Some x => if truthy a then x else b
  | None => b
  end.

Fixpoint own_field (fs : list (string * json)) (k : string) : jsval :=
  match fs with
  | [] => None
  | (k', v) :: fs' => if String.eqb k' k then Some v else own_field fs' k
  end.

Inductive thrown : Type := TypeError.

(** [v.k] for a name [k] that no built-in prototype defines and that is
    neither an index nor [length] (here: items, id, summary, actions,
    diff).  Reading a property of [null] or [undefined] throws. *)
Definition get (v : jsval) (k : string) : thrown + jsval :=
  match v with
  | None => inl TypeError
  | Some JNull => inl TypeError
  | Some (JObj fs) => inr (own_field fs k)
  | Some _ => inr undefined
  end.

(** [v.length === 0]: arrays and strings have their length, an object
    its own [length] field if any ([-0 === 0] holds), numbers and
    booleans have none. *)
Definition length_is_zero (v : jsval) : thrown + bool :=
  match v with
  | None => inl TypeError
  | Some JNull => inl TypeError
  | Some (JArr l) => inr (match l with [] => true | _ => false end)
  | Some (JStr s) => inr (String.eqb s "")
  | Some (JObj fs) =>
      inr (match own_field fs "length" with
           | Some (JNum (S754_zero _)) => true
           | _ => false
           end)
  | Some _ => inr false
  end.

(** [v.map(f)]: only arrays have a callable [map].  [f] may throw. *)
Fixpoint map_throwing {A : Type} (f : json -> thrown + A) (l : list json)
  : thrown + list A :=
  match l with
  | [] => inr []
  | x :: l' =>
      match f x with
      | inl e => inl e
      | inr y =>
          match map_throwing f l' with
          | inl e => inl e
          | inr ys => inr (y :: ys)
          end
      end
  end.

Definition array_map {A : Type} (v : jsval) (f : json -> thrown + A)
  : thrown + list A :=
  match v with
  | Some (JArr l) => map_throwing f l
  | _ => inl TypeError
  end.

(** The number a JSON integer literal denotes. *)
Definition number (z : Z) : spec_float := binary_normalize 53 1024 z 0 false.

(** Template literal substitution [${v}] of a string or of
    [undefined]. *)
Definition interpolate (v : option string) : string :=
  match v with
  | Some s => s
  | None => "undefined"
  end.

(** Whether the conversion of [v] to a string returns (as in a template
    literal).  An object with an own [toString] field, which is never a
    function in a parsed value, has nothing to convert it and the
    conversion throws; an array converts its elements. *)
Fixpoint stringifies (v : json) {struct v} : bool :=
  match v with
  | JObj fs => match own_field fs "toString" with Some _ => false | None => true end
  | JArr l => forallb stringifies l
  | _ => true
  end.

Definition interpolates (v : jsval) : bool :=
  match v with
  | Some x => stringifies x
  | None => true
  end.

(** [undefined], [null], booleans, numbers and strings. *)
Definition primitive (v : jsval) : bool :=
  match v with
  | Some (JArr _) => false
  | Some (JObj _) => false
  | _ => true
  end.

(** [x.k] for a value [x] that is not [null], [k] as for [get]. *)
Definition field (x : json) (k : string) : jsval :=
  match x with
  | JObj fs => own_field fs k
  | _ => undefined
  end.

End Js.

(** ** The browser: storage, environment, network and what an effect does *)

Module Browser.
Import Js.

(** [localStorage]: string keys to string values. *)
Definition getItem (ls : gmap string string) (k : string) : option string :=
  ls !! k.

Definition setItem (ls : gmap string string) (k v : string) : gmap string string :=
  <[k := v]> ls.

(** [process.env.X || ''] *)
Definition env_or_empty (x : option string) : string :=
  match x with
  | Some s => s
  | None => ""
  end.

Record request : Type := Request
  { req_url : string;
    req_headers : list (string * string) }.

(** How [fetch(...).then(res => res.json())] settles: [fetch] rejects,
    or a response arrives whose body parses ([Some]) or does not
    ([None], [res.json()] rejects).  The status is not inspected by any
    page. *)
Inductive settled : Type :=
| fetch_rejected
| responded (status : Z) (body : option json).

(** What a handler does to the world outside the component. *)
Inductive action : Type :=
| preventDefault
| localStorage_setItem (k v : string)
| set_location_href (href : string)
| alert (msg : string)
| fetch (r : request).

Definition fetches (tr : list action) : list request :=
  flat_map (fun a => match a with fetch r => [r] | _ => [] end) tr.

End Browser.

(** ** frontend/app/login/page.tsx, first component *)

Module LoginPage.
Import Js Browser.

(** [submit]; [password] is the component state, [APP_PASSWORD] the
    value of [process.env.NEXT_PUBLIC_APP_PASSWORD]. *)
Definition submit (APP_PASSWORD : option string) (password : string)
           (ls : gmap string string) : gmap string string * list action :=
  if bool_decide (Some password = APP_PASSWORD) then
    (setItem ls "token" password,
     [preventDefault; localStorage_setItem "token" password; set_location_href "/"])
  else
    (ls, [preventDefault; alert "Invalid password"]).

Definition grants_access (tr : list action) : bool :=
  existsb (fun a => match a with
                    | set_location_href h => String.eqb h "/"
                    | _ => false
                    end) tr.

End LoginPage.

(** ** frontend/app/page.tsx *)

Module HomePage.
Import Js Browser.

(** Result of the effect: its actions and the [changes] state once the
    promise chain has settled.  [if (!token)] takes the redirect for a
    missing entry ([null]) and for the empty string. *)
Record result : Type := Result
  { trace : list action;
    changes : json }.

Definition initial_changes : json := JArr [].

Definition the_request (API_URL : option string) (token : string) : request :=
  {| req_url := env_or_empty API_URL +:+ "/v1/changes";
     req_headers := [("X-API-Key", token)] |}.

(** [.then((data) => setChanges(data.items || []))
    .catch(() => setChanges([]))] *)
Definition settle (s : settled) : json :=
  match s with
  | fetch_rejected => JArr []
  | responded _ None => JArr []
  | responded _ (Some data) =>
      match get (Some data) "items" with
      | inl _ => JArr []
      | inr items => or_else items (JArr [])
      end
  end.

Definition effect (ls : gmap string string) (API_URL : option string)
           (server : request -> settled) : result :=
  match getItem ls "token" with
  | Some token =>
      if String.eqb token "" then
        {| trace := [set_location_href "/login"]; changes := initial_changes |}
      else
        let r := the_request API_URL token in
        {| trace := [fetch r]; changes := settle (server r) |}
  | None =>
      {| trace := [set_location_href "/login"]; changes := initial_changes |}
  end.

(** What the component function returns: the element tree, with the
    values it hands to React as children kept as values, or the
    exception it throws while building the tree.  What React and
    [next/link] do with the elements afterwards is not part of the
    component; React renders a child that is a string or a number as
    text and refuses a child that is a plain object. *)
Inductive view : Type :=
| no_changes_found
| change_list (items : list (jsval * jsval))
| render_throws.

(** One [<li>]: key and link target from [change.id], text
    [change.summary].  The link target is the template literal
    [/impact/${change.id}], which converts [change.id] to a string. *)
Definition item (change : json) : thrown + (jsval * jsval) :=
  match get (Some change) "id", get (Some change) "summary" with
  | inr i, inr s => if interpolates i then inr (i, s) else inl TypeError
  | _, _ => inl TypeError
  end.

Definition render (changes : json) : view :=
  match length_is_zero (Some changes) with
  | inl _ => render_throws
  | inr true => no_changes_found
  | inr false =>
      match array_map (Some changes) item with
      | inl _ => render_throws
      | inr items => change_list items
      end
  end.

(** The [Change] interface, [{ id: number; summary: string }], read as a
    shape of parsed values. *)
Record Change : Type := Build_Change
  { id : spec_float;
    summary : string }.

Definition as_Change (v : json) : option Change :=
  match v with
  | JObj fs =>
      match own_field fs "id", own_field fs "summary" with
      | Some (JNum i), Some (JStr s) => Some (Build_Change i s)
      | _, _ => None
      end
  | _ => None
  end.

(** The entry the list shows for a change. *)
Definition entry (c : Change) : jsval * jsval :=
  (Some (JNum (id c)), Some (JStr (summary c))).

End HomePage.

(** ** unnamed/part_000: the other HomePage *)

Module HomePage_part_000.
Import Js Browser.

Definition the_request (API_URL : option string) (token : string) : request :=
  {| req_url := env_or_empty API_URL +:+ "/v1/changes";
     req_headers := [("Authorization", "Bearer " +:+ token)] |}.

(** [.then(setChanges).catch(() => setChanges([]))] *)
Definition settle (s : settled) : json :=
  match s with
  | fetch_rejected => JArr []
  | responded _ None => JArr []
  | responded _ (Some data) => data
  end.

Definition effect (ls : gmap string string) (API_URL : option string)
           (server : request -> settled) : HomePage.result :=
  match getItem ls "token" with
  | Some token =>
      if String.eqb token "" then
        {| HomePage.trace := [set_location_href "/login"];
           HomePage.changes := HomePage.initial_changes |}
      else
        let r := the_request API_URL token in
        {| HomePage.trace := [fetch r]; HomePage.changes := settle (server r) |}
  | None =>
      {| HomePage.trace := [set_location_href "/login"];
         HomePage.changes := HomePage.initial_changes |}
  end.

Definition render (changes : json) : HomePage.view :=
  match array_map (Some changes) HomePage.item with
  | inl _ => HomePage.render_throws
  | inr items => HomePage.change_list items
  end.

End HomePage_part_000.

(** ** frontend/app/login/page.tsx, second component *)

Module ImpactPage.
Import Js Browser.

Record result : Type := Result
  { trace : list action;
    assessment : json }.

Definition initial_assessment : json := JNull.

(** [id] is [params?.id], possibly [undefined]. *)
Definition the_request (API_URL : option string) (id : option string)
           (token : string) : request :=
  {| req_url := env_or_empty API_URL +:+ "/v1/impacts/" +:+ interpolate id;
     req_headers := [("Authorization", "Bearer " +:+ token)] |}.

(** [.then(setAssessment).catch(() => setAssessment(null))] *)
Definition settle (s : settled) : json :=
  match s with
  | fetch_rejected => JNull
  | responded _ None => JNull
  | responded _ (Some data) => data
  end.

Definition effect (ls : gmap string string) (API_URL : option string)
           (id : option string) (server : request -> settled) : result :=
  match getItem ls "token" with
  | Some token =>
      if String.eqb token "" then
        {| trace := [set_location_href "/login"]; assessment := initial_assessment |}
      else
        let r := the_request API_URL id token in
        {| trace := [fetch r]; assessment := settle (server r) |}
  | None =>
      {| trace := [set_location_href "/login"]; assessment := initial_assessment |}
  end.

(** What the component function returns: the element tree, with the
    values it hands to React as children kept as values, or the
    exception it throws while building the tree (see [HomePage.view]). *)
Inductive view : Type :=
| loading
| page (summary : jsval) (actions : list json) (diff : jsval)
| render_throws.

Definition render (assessment : json) : view :=
  if negb (truthy (Some assessment)) then loading
  else
    match get (Some assessment) "summary",
          get (Some assessment) "actions",
          get (Some assessment) "diff" with
    | inr s, inr a, inr d =>
        match array_map a (fun x => inr x) with
        | inl _ => render_throws
        | inr items => page s items d
        end
    | _, _, _ => render_throws
    end.

(** The [Assessment] interface:
    [{ id: number; summary: string; actions: string[]; diff?: string }],
    read as a shape of parsed values. *)
Record Assessment : Type := Build_Assessment
  { id : spec_float;
    summary : string;
    actions : list string;
    diff : option string }.

Definition as_number (v : jsval) : option spec_float :=
  match v with Some (JNum x) => Some x | _ => None end.

Definition as_string (v : jsval) : option string :=
  match v with Some (JStr s) => Some s | _ => None end.

Definition as_strings (v : jsval) : option (list string) :=
  match v with
  | Some (JArr l) => mapM (fun x => as_string (Some x)) l
  | _ => None
  end.

Definition as_optional_string (v : jsval) : option (option string) :=
  match v with
  | None => Some None
  | Some (JStr s) => Some (Some s)
  | Some _ => None
  end.

Definition as_Assessment (v : json) : option Assessment :=
  match v with
  | JObj fs =>
      i ← as_number (own_field fs "id");
      s ← as_string (own_field fs "summary");
      a ← as_strings (own_field fs "actions");
      d ← as_optional_string (own_field fs "diff");
      Some (Build_Assessment i s a d)
  | _ => None
  end.

End ImpactPage.

(** ** The change detector (specification sections 3, 4 and 7) *)

Module Pipeline.

(** Modelled from the spec: the entities Document, DocumentVersion and
    ChangeEvent of section 3, with the fields named there; the pipeline
    that creates them is not among the repository's source files. *)
Record Document : Type := Build_Document
  { doc_id : Z;
    doc_external_id : string;
    doc_source_id : Z }.

Record DocumentVersion : Type := Build_DocumentVersion
  { ver_id : Z;
    ver_document_id : Z;
    ver_content_hash : string;
    ver_content : string;
    ver_created_at : Z }.

Record ChangeEvent : Type := Build_ChangeEvent
  { ev_id : Z;
    ev_document_version_id : Z;
    ev_prev_version_id : option Z;
    ev_diff : string;
    ev_created_at : Z }.

(** Modelled from the spec: the persisted store the pipeline writes
    (sections 2 and 5): the three ledgers in creation order, the next
    identifier of each, and the change events handed to the impact
    assessor (step 8 of section 4.4). *)
Record store : Type := Build_store
  { documents : list Document;
    versions : list DocumentVersion;
    events : list ChangeEvent;
    next_document_id : Z;
    next_version_id : Z;
    next_event_id : Z;
    assessor_queue : list Z }.

(** Modelled from the spec: the result of [ingest] (section 6),
    [{status: "unchanged"|"changed", changeEventId?}], and the errors of
    section 7 that ingestion itself raises. *)
Inductive status : Type :=
| unchanged
| changed (changeEventId : option Z).

Inductive error : Type :=
| ValidationError
| IngestConflict.

Inductive ConflictError : Type := conflict.

Definition same_key (sourceId : Z) (externalId : string) (d : Document) : bool :=
  Z.eqb (doc_source_id d) sourceId && String.eqb (doc_external_id d) externalId.

(** Modelled from the spec: [ensureDocument], the idempotent
    get-or-create keyed on [(sourceId, externalId)] of section 4.2; the
    repository's source files hold no version ledger. *)
Definition ensureDocument (sourceId : Z) (externalId : string) (s : store)
  : Document * store :=
  match find (same_key sourceId externalId) (documents s) with
  | Some d => (d, s)
  | None =>
      let d := Build_Document (next_document_id s) externalId sourceId in
      (d, {| documents := documents s ++ [d];
             versions := versions s;
             events := events s;
             next_document_id := next_document_id s + 1;
             next_version_id := next_version_id s;
             next_event_id := next_event_id s;
             assessor_queue := assessor_queue s |})
  end.

Definition of_document (documentId : Z) (v : DocumentVersion) : bool :=
  Z.eqb (ver_document_id v) documentId.

(** Modelled from the spec: [latestVersion] of section 4.2, the version
    of the document with the greatest creation order, or none. *)
Definition latestVersion (documentId : Z) (s : store) : option DocumentVersion :=
  last (List.filter (of_document documentId) (versions s)).

(** Modelled from the spec: [appendVersion] of section 4.2.  [seen] is
    the latest version the caller read; the append fails when the
    document's latest version is no longer that one. *)
Definition appendVersion (documentId : Z) (content hash : string)
           (seen : option Z) (now : Z) (s : store)
  : ConflictError + (DocumentVersion * store) :=
  if bool_decide (ver_id <$> latestVersion documentId s = seen) then
    let v := Build_DocumentVersion (next_version_id s) documentId hash content now in
    inr (v, {| documents := documents s;
               versions := versions s ++ [v];
               events := events s;
               next_document_id := next_document_id s;
               next_version_id := next_version_id s + 1;
               next_event_id := next_event_id s;
               assessor_queue := assessor_queue s |})
  else inl conflict.

(** Modelled from the spec: steps 7 and 8 of section 4.4, the change
    event of a new version is recorded and handed to the assessor. *)
Definition recordChange (v : DocumentVersion) (prev : option Z) (d : string)
           (now : Z) (s : store) : Z * store :=
  let e := Build_ChangeEvent (next_event_id s) (ver_id v) prev d now in
  (ev_id e,
   {| documents := documents s;
      versions := versions s;
      events := events s ++ [e];
      next_document_id := next_document_id s;
      next_version_id := next_version_id s;
      next_event_id := next_event_id s + 1;
      assessor_queue := assessor_queue s ++ [ev_id e] |}).

Section ChangeDetector.

(** Content Store (4.1) and Diff Engine (4.3): pure functions. *)
Variable fingerprint : string -> string.
Variable diff : option string -> string -> string.
(** Which snapshots are rejected with [ValidationError] (section 7). *)
Variable malformed : string -> bool.
(** Whether a document's first version emits a ChangeEvent (section 9
    leaves the policy open). *)
Variable first_version_emits : bool.

(** Modelled from the spec: steps 3 to 8 of the core algorithm of
    section 4.4, with the bounded retry of step 5. *)
Fixpoint detect (attempts : nat) (document : Document) (content hash : string)
         (now : Z) (s : store) : (error + status) * store :=
  match attempts with
  | O => (inl IngestConflict, s)
  | S attempts' =>
      let latest := latestVersion (doc_id document) s in
      if bool_decide (ver_content_hash <$> latest = Some hash) then
        (inr unchanged, s)
      else
        match appendVersion (doc_id document) content hash (ver_id <$> latest) now s with
        | inl conflict => detect attempts' document content hash now s
        | inr (version, s1) =>
            if bool_decide (is_Some latest) || first_version_emits then
              let d := diff (ver_content <$> latest) content in
              let '(id, s2) := recordChange version (ver_id <$> latest) d now s1 in
              (inr (changed (Some id)), s2)
            else (inr (changed None), s1)
        end
  end.

(** Modelled from the spec: the bound on the retries of step 5
    (section 5: bounded, e.g. 3 attempts). *)
Definition retry_bound : nat := 3.

(** Modelled from the spec: the ingestion entry point of section 6,
    [ingest(sourceId, externalId, rawContent)]; the repository's
    source files hold no change detector. *)
Definition ingest (sourceId : Z) (externalId : string) (rawContent : string)
           (now : Z) (s : store) : (error + status) * store :=
  if malformed rawContent then (inl ValidationError, s)
  else
    let '(document, s0) := ensureDocument sourceId externalId s in
    let hash := fingerprint rawContent in
    detect retry_bound document rawContent hash now s0.

End ChangeDetector.

End Pipeline.

(** ** deploy.sh *)

Module Deploy.

Inductive command : Type :=
| docker_build (dockerfile tag : string)
| docker_compose_up_d.

(** The three commands of the script, in order: build the backend
    image, build the frontend image, start the services. *)
Definition script : list command :=
  [ docker_build "Dockerfile.backend" "regradar-backend";
    docker_build "Dockerfile.frontend" "regradar-frontend";
    docker_compose_up_d ].

Section Shell.

(** The machine the script runs on, and what a command does to it: its
    exit status and the machine afterwards. *)
Variable world : Type.
Variable exec : command -> world -> Z * world.

(** [set -e]: the commands run in order and the script exits with the
    status of the first command whose status is not 0; when all succeed
    it ends with status 0.  The result lists the commands that were
    started. *)
Fixpoint run_set_e (cs : list command) (w : world) : Z * list command * world :=
  match cs with
  | [] => (0, [], w)
  | c :: cs' =>
      let '(status, w') := exec c w in
      if Z.eqb status 0 then
        let '(final, started, w'') := run_set_e cs' w' in
        (final, c :: started, w'')
      else (status, [c], w')
  end.

Definition deploy (w : world) : Z * list command * world := run_set_e script w.

End Shell.

End Deploy.

(** ** Concrete stores, responses and snapshots used in the examples *)

Module Examples.
Import Js Browser.

Definition one_change : json :=
  JObj [("id", JNum (number 1)); ("summary", JStr "Rule A amended")].

Definition bare_list : json := JArr [one_change].

Definition wrapped_list : json := JObj [("items", bare_list)].

Definition logged_in : gmap string string := {["token" := "secret"]}.

Definition replies (body : json) : request -> settled :=
  fun _ => responded 200 (Some body).

Definition an_assessment : json :=
  JObj [("id", JNum (number 1));
        ("summary", JStr "Section 3 amended");
        ("actions", JArr [JStr "Review policy"; JStr "Notify legal"]);
        ("diff", JStr "- old / + new")].


Definition then_insert (t : string) (given : list (string * Sql.value)) (d : Sql.db)
  : Sql.db :=
  (Sql.insert Schema.schema t 0 given d).2.

(** Two sources, one document of the first source, one version of it. *)
Definition seeded : Sql.db :=
  then_insert "document_version"
    [("document_id", Sql.VInt 1); ("content_hash", Sql.VText "h1");
     ("content", Sql.VText "Rule A v1")]
  (then_insert "document"
    [("external_id", Sql.VText "ext-1"); ("source_id", Sql.VInt 1)]
  (then_insert "source" [("url", Sql.VText "https://b.example/feed")]
  (then_insert "source" [("url", Sql.VText "https://a.example/feed")]
     Sql.empty_db))).

Definition assess_version_1 : list (string * Sql.value) :=
  [("document_version_id", Sql.VInt 1);
   ("summary", Sql.VText "Section 3 amended");
   ("actions", Sql.VText "Review policy; notify legal")].

Definition change_of_version_1 : list (string * Sql.value) :=
  [("document_version_id", Sql.VInt 1); ("diff", Sql.VText "document added")].


(** Stand-ins for the content store, the diff engine and validation. *)
Definition toy_fingerprint (content : string) : string := "digest:" +:+ content.

Definition toy_diff (old : option string) (new : string) : string :=
  match old with
  | None => "document added"
  | Some o => "- " +:+ o +:+ " / + " +:+ new
  end.

Definition empty_content (content : string) : bool := String.eqb content "".

Definition fresh_store : Pipeline.store :=
  Pipeline.Build_store [] [] [] 1 1 1 [].

End Examples.

(** * Properties of the store *)

Section SqlFacts.
Import Sql.

Lemma spec_float_eqb_eq (a b : spec_float) : spec_float_eqb a b = true <-> a = b.
Proof.
  split.
  - destruct a, b; simpl; try discriminate; auto.
    + intros H. apply Bool.eqb_prop in H. by subst.
    + intros H. apply Bool.eqb_prop in H. by subst.
    + rewrite !andb_true_iff. intros [[H1 H2] H3].
      apply Bool.eqb_prop in H1. apply Pos.eqb_eq in H2. apply Z.eqb_eq in H3.
      by subst.
  - intros <-. destruct a; simpl; auto using Bool.eqb_reflx.
    by rewrite Bool.eqb_reflx, Pos.eqb_refl, Z.eqb_refl.
Qed.

Lemma value_eqb_true : forall a b : value, value_eqb a b = true -> a = b.
Proof.
  fix IH 1. intros a b. destruct a, b; simpl; try discriminate; intros H.
  - reflexivity.
  - apply Z.eqb_eq in H. by subst.
  - apply String.eqb_eq in H. by subst.
  - apply spec_float_eqb_eq in H. by subst.
  - apply Z.eqb_eq in H. by subst.
  - f_equal. revert elems0 H.
    induction elems as [|x l IHl]; intros [|y m]; try discriminate; auto.
    rewrite andb_true_iff. intros [Hx Hl].
    f_equal; [by apply IH | by apply IHl].
Qed.

Lemma value_eqb_refl : forall a : value, value_eqb a a = true.
Proof.
  fix IH 1. intros a. destruct a; simpl.
  - reflexivity.
  - apply Z.eqb_refl.
  - apply String.eqb_refl.
  - by apply spec_float_eqb_eq.
  - apply Z.eqb_refl.
  - induction elems as [|x l IHl]; [reflexivity |].
    by rewrite IH, IHl.
Qed.

Lemma value_eqb_eq (a b : value) : value_eqb a b = true <-> a = b.
Proof. split; [apply value_eqb_true | intros <-; apply value_eqb_refl]. Qed.


Lemma lookup_map {A B : Type} (f : A -> B) (l : list A) (i : nat) :
  map f l !! i = f <$> (l !! i).
Proof. revert i. induction l as [|x l IH]; intros [|i]; simpl; auto. Qed.

Lemma existsb_value_eqb (v : value) (l : list value) :
  existsb (value_eqb v) l = true <-> In v l.
Proof.
  rewrite existsb_exists. split.
  - intros (x & Hx & Heq). apply value_eqb_true in Heq. by subst.
  - intros Hin. exists v. split; [done | apply value_eqb_refl].
Qed.

(** UNIQUE, read on positions: a non-null value occurs at one position
    only. *)
Lemma unique_values_lookup (l : list value) :
  unique_values l = true ->
  forall (i j : nat) (v : value),
    l !! i = Some v -> l !! j = Some v -> v <> VNull -> i = j.
Proof.
  induction l as [|x l IH]; intros Hu i j v Hi Hj Hv; [by destruct i |].
  simpl in Hu. apply andb_true_iff in Hu as [Hx Hl].
  assert (Hfresh : forall k, l !! k = Some x -> x <> VNull -> False).
  { intros k Hk Hnn. apply orb_true_iff in Hx as [Hx | Hx].
    - by destruct x.
    - apply negb_true_iff in Hx.
      assert (Hin : existsb (value_eqb x) l = true).
      { apply existsb_value_eqb, list_elem_of_In, list_elem_of_lookup. eauto. }
      congruence. }
  destruct i as [|i], j as [|j]; simpl in Hi, Hj.
  - reflexivity.
  - injection Hi as ->. by destruct (Hfresh j Hj Hv).
  - injection Hj as ->. by destruct (Hfresh i Hi Hv).
  - f_equal. by apply (IH Hl i j v).
Qed.

Lemma unique_values_snoc (l : list value) (v : value) :
  unique_values l = true ->
  (is_null v || negb (existsb (value_eqb v) l)) = true ->
  unique_values (l ++ [v]) = true.
Proof.
  intros Hl Hv. induction l as [|x l IH]; simpl.
  - by rewrite orb_true_r.
  - simpl in Hl. apply andb_true_iff in Hl as [Hx Hl].
    simpl in Hv. rewrite IH; [rewrite andb_true_r | done |].
    + destruct (is_null x) eqn:Hnx; [done |]. simpl in *.
      rewrite existsb_app. simpl. rewrite orb_false_r.
      apply negb_true_iff in Hx. rewrite Hx. simpl.
      destruct (value_eqb x v) eqn:Hxv; [| done].
      apply value_eqb_true in Hxv. subst x. rewrite Hnx, value_eqb_refl in Hv.
      discriminate.
    + destruct (is_null v); [done |]. simpl in *.
      apply negb_true_iff in Hv. apply orb_false_iff in Hv as [_ Hv].
      by rewrite Hv.
Qed.

Lemma satisfies_table_ok (sch : list table) (d : db) (tb : table) :
  satisfies sch d = true -> In tb sch -> table_ok sch d tb = true.
Proof. unfold satisfies. rewrite forallb_forall. auto. Qed.

Lemma table_ok_row (sch : list table) (d : db) (tb : table) (r : row) :
  table_ok sch d tb = true -> In r (rows_of d (tbl_name tb)) ->
  row_ok (tbl_columns tb) r = true.
Proof.
  unfold table_ok. rewrite andb_true_iff, forallb_forall. intros [H _]. auto.
Qed.

Lemma table_ok_unique (sch : list table) (d : db) (tb : table) (c : column) :
  table_ok sch d tb = true -> In c (tbl_columns tb) -> is_unique c = true ->
  unique_values (column_values tb (rows_of d (tbl_name tb)) (col_name c)) = true.
Proof.
  unfold table_ok. rewrite andb_true_iff, !forallb_forall. intros [_ H] Hc Hu.
  specialize (H c Hc). unfold column_ok in H. rewrite Hu in H. simpl in H.
  by apply andb_true_iff in H as [H _].
Qed.

Lemma table_ok_reference (sch : list table) (d : db) (tb : table) (c : column)
      (target : string * string) (r : row) :
  table_ok sch d tb = true -> In c (tbl_columns tb) -> In target (references c) ->
  In r (rows_of d (tbl_name tb)) ->
  reference_ok sch d target (cell tb r (col_name c)) = true.
Proof.
  unfold table_ok. rewrite andb_true_iff, !forallb_forall. intros [_ H] Hc Ht Hr.
  specialize (H c Hc). unfold column_ok in H.
  apply andb_true_iff in H as [_ H]. rewrite forallb_forall in H.
  specialize (H target Ht). rewrite forallb_forall in H. apply H.
  unfold column_values. apply in_map_iff. eauto.
Qed.

(** REFERENCES, read on rows: the value is NULL or is carried by a row of
    the referenced table. *)
Lemma reference_ok_row (sch : list table) (d : db) (t x : string) (tb' : table) (v : value) :
  find_table sch t = Some tb' ->
  reference_ok sch d (t, x) v = true ->
  v = VNull \/ exists r', In r' (rows_of d t) /\ cell tb' r' x = v.
Proof.
  intros Hf. unfold reference_ok. simpl. rewrite Hf.
  intros H. apply orb_true_iff in H as [H | H].
  - left. by destruct v.
  - right. apply existsb_value_eqb in H. unfold column_values in H.
    apply in_map_iff in H as (r' & Hc & Hin). eauto.
Qed.


Lemma forallb_eq_on {A : Type} (f g : A -> bool) (l : list A) :
  (forall x, In x l -> f x = g x) -> forallb f l = forallb g l.
Proof.
  induction l as [|x l IH]; intros H; simpl; [done |].
  rewrite (H x) by (by left). rewrite IH; [done |]. intros y Hy. apply H. by right.
Qed.

Lemma reference_ok_same_rows (sch : list table) (d d' : db) (target : string * string)
      (v : value) :
  rows_of d' (fst target) = rows_of d (fst target) ->
  reference_ok sch d' target v = reference_ok sch d target v.
Proof. intros H. unfold reference_ok. by rewrite H. Qed.

(** A table whose rows and whose referenced tables are untouched keeps
    its verdict. *)
Lemma table_ok_same_rows (sch : list table) (d d' : db) (tb : table) :
  rows_of d' (tbl_name tb) = rows_of d (tbl_name tb) ->
  (forall c target, In c (tbl_columns tb) -> In target (references c) ->
                    rows_of d' (fst target) = rows_of d (fst target)) ->
  table_ok sch d' tb = table_ok sch d tb.
Proof.
  intros Hrows Href. unfold table_ok. rewrite Hrows. f_equal.
  apply forallb_eq_on. intros c Hc. unfold column_ok. rewrite Hrows. f_equal.
  apply forallb_eq_on. intros target Ht.
  apply forallb_eq_on. intros v _. apply reference_ok_same_rows. by apply (Href c).
Qed.

(** Adding one row to a table: what has to be checked for the new row. *)
Lemma table_ok_snoc (sch : list table) (d d' : db) (tb : table) (r : row) :
  table_ok sch d tb = true ->
  rows_of d' (tbl_name tb) = rows_of d (tbl_name tb) ++ [r] ->
  (forall c target, In c (tbl_columns tb) -> In target (references c) ->
                    rows_of d' (fst target) = rows_of d (fst target)) ->
  row_ok (tbl_columns tb) r = true ->
  (forall c, In c (tbl_columns tb) -> is_unique c = true ->
             (is_null (cell tb r (col_name c))
              || negb (existsb (value_eqb (cell tb r (col_name c)))
                               (column_values tb (rows_of d (tbl_name tb)) (col_name c))))
             = true) ->
  (forall c target, In c (tbl_columns tb) -> In target (references c) ->
                    reference_ok sch d target (cell tb r (col_name c)) = true) ->
  table_ok sch d' tb = true.
Proof.
  intros Hok Hrows Href Hrow Huniq Hfk. unfold table_ok in *.
  apply andb_true_iff in Hok as [Hrs Hcs]. rewrite Hrows.
  apply andb_true_iff. split.
  - rewrite forallb_app. simpl. by rewrite Hrs, Hrow.
  - rewrite forallb_forall in Hcs. apply forallb_forall. intros c Hc.
    specialize (Hcs c Hc). unfold column_ok in *. rewrite Hrows.
    apply andb_true_iff in Hcs as [Hu Hf].
    unfold column_values in *. rewrite map_app. simpl.
    apply andb_true_iff. split.
    + destruct (is_unique c) eqn:Hic; [simpl in * | done].
      apply unique_values_snoc; [done | by apply Huniq].
    + rewrite forallb_forall in Hf. apply forallb_forall. intros target Ht.
      specialize (Hf target Ht). rewrite forallb_app. simpl.
      rewrite (reference_ok_same_rows sch d d') by (by apply (Href c)).
      rewrite (Hfk c target Hc Ht), andb_true_r.
      rewrite <- Hf. apply forallb_eq_on. intros v _.
      apply reference_ok_same_rows. by apply (Href c).
Qed.

Lemma rows_of_add_row_same (d : db) (tb : table) (now : Z) (given : list (string * value)) :
  rows_of (add_row d tb now given) (tbl_name tb)
  = rows_of d (tbl_name tb) ++ [map (insert_cell d (tbl_name tb) now given) (tbl_columns tb)].
Proof. unfold rows_of, add_row. simpl. by rewrite lookup_insert_eq. Qed.

Lemma rows_of_add_row_other (d : db) (tb : table) (now : Z) (given : list (string * value))
      (t : string) :
  t <> tbl_name tb -> rows_of (add_row d tb now given) t = rows_of d t.
Proof. intros Hne. unfold rows_of, add_row. simpl. by rewrite lookup_insert_ne. Qed.

Lemma satisfies_schema (d : db) :
  satisfies Schema.schema d = true <->
  table_ok Schema.schema d Schema.source = true
  /\ table_ok Schema.schema d Schema.document = true
  /\ table_ok Schema.schema d Schema.document_version = true
  /\ table_ok Schema.schema d Schema.change_event = true
  /\ table_ok Schema.schema d Schema.impact_assessment = true.
Proof.
  unfold satisfies, Schema.schema. cbn [forallb].
  rewrite !andb_true_iff. intuition.
Qed.

End SqlFacts.

Section Store.
Import Sql Schema.

Local Arguments value_eqb : simpl never.

Ltac each_column H :=
  simpl in H;
  repeat match type of H with
         | _ \/ _ => destruct H as [<- | H]
         | False => destruct H
         end.

Lemma find_impact_assessment :
  find_table schema "impact_assessment" = Some impact_assessment.
Proof. reflexivity. Qed.

Lemma row_ok_cell (cs : list column) (r : row) :
  row_ok cs r = true ->
  forall (i : nat) (c : column), cs !! i = Some c -> cell_ok c (nth i r VNull) = true.
Proof.
  revert r. induction cs as [|x cs IH]; intros [|v r] Hrow i c Hi;
    try discriminate Hrow.
  - destruct i; discriminate Hi.
  - simpl in Hrow. apply andb_true_iff in Hrow as [Hv Hr].
    destruct i as [|i]; simpl in *.
    + by injection Hi as <-.
    + by apply IH.
Qed.

Lemma primary_key_not_null (d : db) (tb : table) (cs : list column) (r : row) :
  satisfies schema d = true -> In tb schema ->
  tbl_columns tb = Column "id" SERIAL [PRIMARY_KEY] :: cs ->
  In r (rows_of d (tbl_name tb)) ->
  exists n, cell tb r "id" = VInt n /\ in_int4 n = true.
Proof.
  intros Hs Htb Hcols Hr.
  pose proof (table_ok_row _ _ _ _ (satisfies_table_ok _ _ _ Hs Htb) Hr) as Hrow.
  unfold cell. rewrite Hcols in *. simpl.
  destruct r as [|v r]; [discriminate |]. simpl in Hrow.
  apply andb_true_iff in Hrow as [Hv _]. unfold cell_ok in Hv. simpl in Hv.
  destruct v; try discriminate. exists n. split; [done |].
  by apply andb_true_iff in Hv as [Hv _].
Qed.

(** PRIMARY KEY on [id]: two positions of a table never hold the same
    id. *)
Lemma primary_key_unique (d : db) (tb : table) (cs : list column) :
  satisfies schema d = true -> In tb schema ->
  tbl_columns tb = Column "id" SERIAL [PRIMARY_KEY] :: cs ->
  forall (i j : nat) (r1 r2 : row),
    rows_of d (tbl_name tb) !! i = Some r1 ->
    rows_of d (tbl_name tb) !! j = Some r2 ->
    cell tb r1 "id" = cell tb r2 "id" -> i = j.
Proof.
  intros Hs Htb Hcols i j r1 r2 Hi Hj Heq.
  pose proof (satisfies_table_ok _ _ _ Hs Htb) as Hok.
  assert (Hin1 : In r1 (rows_of d (tbl_name tb))).
  { apply list_elem_of_In, list_elem_of_lookup. eauto. }
  destruct (primary_key_not_null d tb cs r1 Hs Htb Hcols Hin1) as (n & Hn & _).
  pose proof (table_ok_unique _ _ _ (Column "id" SERIAL [PRIMARY_KEY]) Hok) as Hu.
  rewrite Hcols in Hu. specialize (Hu (or_introl eq_refl) eq_refl). simpl in Hu.
  apply (unique_values_lookup _ Hu i j (VInt n)).
  - unfold column_values. rewrite lookup_map, Hi. simpl. by rewrite Hn.
  - unfold column_values. rewrite lookup_map, Hj. simpl. by rewrite <- Heq, Hn.
  - discriminate.
Qed.


(** A row of [change_event] or of [impact_assessment] for a version that
    exists can always be added, however many rows of that table already
    name the version, as long as the sequence hands out an unused id. *)
Lemma insert_for_version_succeeds (tb : table) (d : db) (now v : Z) :
  tb = change_event \/ tb = impact_assessment ->
  satisfies schema d = true ->
  In (VInt v) (column_values document_version (rows_of d "document_version") "id") ->
  in_int4 (next_serial d (tbl_name tb)) = true ->
  ~ In (VInt (next_serial d (tbl_name tb)))
       (column_values tb (rows_of d (tbl_name tb)) "id") ->
  insert schema (tbl_name tb) now [("document_version_id", VInt v)] d
  = (done_ok, add_row d tb now [("document_version_id", VInt v)])
  /\ satisfies schema (add_row d tb now [("document_version_id", VInt v)]) = true.
Proof.
  intros Htb Hs Hv Hrange Hfresh.
  assert (Hv4 : in_int4 v = true).
  { unfold column_values in Hv. apply in_map_iff in Hv as (r & Hc & Hr).
    destruct (primary_key_not_null d document_version _ r Hs
                ltac:(simpl; auto 10) eq_refl Hr) as (n & Hn & H4).
    congruence. }
  assert (Href : reference_ok schema d ("document_version", "id") (VInt v) = true).
  { unfold reference_ok. simpl. by apply existsb_value_eqb. }
  clear Hv.
  assert (Hnew : satisfies schema (add_row d tb now [("document_version_id", VInt v)]) = true).
  { apply satisfies_schema in Hs as (Hs1 & Hs2 & Hs3 & Hs4 & Hs5).
    apply satisfies_schema.
    destruct Htb as [-> | ->]; simpl in Hrange, Hfresh.
    - repeat split.
      1-3, 5: rewrite (table_ok_same_rows schema d); [done | by apply rows_of_add_row_other |];
              intros c target Hc Ht; each_column Hc; each_column Ht;
              by apply rows_of_add_row_other.
      apply (table_ok_snoc _ d _ _ _ Hs4 (rows_of_add_row_same _ _ _ _)).
      + intros c target Hc Ht; each_column Hc; each_column Ht;
          by apply rows_of_add_row_other.
      + simpl. unfold cell_ok. simpl. by rewrite Hrange, Hv4.
      + intros c Hc Hu. each_column Hc; try discriminate Hu.
        simpl. apply negb_true_iff, not_true_is_false.
        intros Hin. by apply existsb_value_eqb in Hin.
      + intros c target Hc Ht. each_column Hc; each_column Ht; done.
    - repeat split.
      1-4: rewrite (table_ok_same_rows schema d); [done | by apply rows_of_add_row_other |];
           intros c target Hc Ht; each_column Hc; each_column Ht;
           by apply rows_of_add_row_other.
      apply (table_ok_snoc _ d _ _ _ Hs5 (rows_of_add_row_same _ _ _ _)).
      + intros c target Hc Ht; each_column Hc; each_column Ht;
          by apply rows_of_add_row_other.
      + simpl. unfold cell_ok. simpl. by rewrite Hrange, Hv4.
      + intros c Hc Hu. each_column Hc; try discriminate Hu.
        simpl. apply negb_true_iff, not_true_is_false.
        intros Hin. by apply existsb_value_eqb in Hin.
      + intros c target Hc Ht. each_column Hc; each_column Ht; done. }
  split; [| done].
  unfold insert.
  replace (find_table schema (tbl_name tb)) with (Some tb)
    by (by destruct Htb as [-> | ->]).
  replace (columns_exist tb [("document_version_id", VInt v)]) with true
    by (by destruct Htb as [-> | ->]).
  change (columns_distinct [("document_version_id", VInt v)]) with true.
  simpl. by rewrite Hnew.
Qed.


Lemma satisfies_rows_only (sch : list table) (d d' : db) :
  db_rows d' = db_rows d -> satisfies sch d' = satisfies sch d.
Proof.
  intros H. unfold satisfies. apply forallb_eq_on. intros tb _.
  apply table_ok_same_rows; intros; unfold rows_of; by rewrite H.
Qed.

(** Statements keep the constraints: a store that satisfies the schema
    still does after any [INSERT] or [DELETE], accepted or refused. *)
Lemma insert_keeps_constraints (sch : list table) (t : string) (now : Z)
      (given : list (string * value)) (d : db) :
  satisfies sch d = true -> satisfies sch (insert sch t now given d).2 = true.
Proof.
  intros Hs. unfold insert. destruct (find_table sch t) as [tb|]; [| done].
  destruct (columns_exist tb given); [| done].
  destruct (columns_distinct given); [| done]. simpl.
  destruct (satisfies sch (add_row d tb now given)) eqn:Hnew; simpl; [done |].
  by rewrite (satisfies_rows_only sch d).
Qed.

Lemma delete_keeps_constraints (sch : list table) (t c : string) (v : value) (d : db) :
  satisfies sch d = true -> satisfies sch (delete_where sch t c v d).2 = true.
Proof.
  intros Hs. unfold delete_where. destruct (find_table sch t) as [tb|]; [| done].
  destruct (col_index (tbl_columns tb) c); [| done].
  match goal with |- context [if ?b then _ else _] => destruct b eqn:Hnew end; done.
Qed.

(** C1, as stated, fails: two inserts of an assessment for version 1
    both succeed, and the resulting store, which satisfies every
    constraint of the schema, holds two rows for that version. *)
Lemma two_assessments_for_one_version :
  let first := insert schema "impact_assessment" 0 Examples.assess_version_1 Examples.seeded in
  let second := insert schema "impact_assessment" 1 Examples.assess_version_1 first.2 in
  first.1 = done_ok
  /\ second.1 = done_ok
  /\ satisfies schema second.2 = true
  /\ column_values impact_assessment (rows_of second.2 "impact_assessment")
                   "document_version_id" = [VInt 1; VInt 1]
  /\ unique_columns impact_assessment = ["id"].
Proof. vm_compute. repeat split. Qed.

(** C1, amended: in a store that satisfies the schema, the rows of
    [impact_assessment] are told apart by [id], and each row's
    [document_version_id] is NULL or the id of an existing
    [document_version].  Uniqueness of [document_version_id] is not a
    constraint of the layout: an insert for an existing version succeeds
    whenever the id drawn from the sequence is unused, however many rows
    already name that version. *)
Theorem assessments_keyed_by_id_not_by_version (d : db) :
  satisfies schema d = true ->
  (forall (i j : nat) (r1 r2 : row),
      rows_of d "impact_assessment" !! i = Some r1 ->
      rows_of d "impact_assessment" !! j = Some r2 ->
      cell impact_assessment r1 "id" = cell impact_assessment r2 "id" -> i = j)
  /\ (forall r, In r (rows_of d "impact_assessment") ->
        cell impact_assessment r "document_version_id" = VNull
        \/ exists r', In r' (rows_of d "document_version")
                      /\ cell document_version r' "id"
                         = cell impact_assessment r "document_version_id")
  /\ (forall now v,
        In (VInt v) (column_values document_version (rows_of d "document_version") "id") ->
        in_int4 (next_serial d "impact_assessment") = true ->
        ~ In (VInt (next_serial d "impact_assessment"))
             (column_values impact_assessment (rows_of d "impact_assessment") "id") ->
        exists d',
          insert schema "impact_assessment" now [("document_version_id", VInt v)] d
          = (done_ok, d')
          /\ satisfies schema d' = true
          /\ rows_of d' "impact_assessment"
             = rows_of d "impact_assessment"
               ++ [[VInt (next_serial d "impact_assessment"); VInt v;
                    VNull; VNull; VNull; VTime now]]).
Proof.
  intros Hs. split; [| split].
  - apply (primary_key_unique d impact_assessment (tl (tbl_columns impact_assessment)) Hs);
      [simpl; auto 10 | reflexivity].
  - intros r Hr.
    apply (reference_ok_row schema d "document_version" "id" document_version);
      [reflexivity |].
    apply (table_ok_reference schema d impact_assessment
             (Column "document_version_id" INT [REFERENCES "document_version" "id"])).
    + apply satisfies_table_ok; [done | simpl; auto 10].
    + simpl; auto 10.
    + simpl; auto 10.
    + done.
  - intros now v Hv Hrange Hfresh.
    destruct (insert_for_version_succeeds impact_assessment d now v
                (or_intror eq_refl) Hs Hv Hrange Hfresh) as [Hins Hnew].
    eexists. split; [exact Hins | split; [exact Hnew |]].
    apply (rows_of_add_row_same d impact_assessment).
Qed.

Lemma assessments_keyed_by_id_not_by_version_witness :
  exists d',
    insert schema "impact_assessment" 5 [("document_version_id", VInt 1)]
           (Examples.then_insert "impact_assessment" Examples.assess_version_1 Examples.seeded)
    = (done_ok, d')
    /\ satisfies schema d' = true
    /\ rows_of d' "impact_assessment"
       = rows_of (Examples.then_insert "impact_assessment" Examples.assess_version_1
                    Examples.seeded) "impact_assessment"
         ++ [[VInt 2; VInt 1; VNull; VNull; VNull; VTime 5]].
Proof.
  refine (proj2 (proj2 (assessments_keyed_by_id_not_by_version
            (Examples.then_insert "impact_assessment" Examples.assess_version_1
               Examples.seeded) _)) 5 1 _ _ _).
  - vm_compute. reflexivity.
  - vm_compute. auto.
  - vm_compute. reflexivity.
  - vm_compute. intros [H | []]. discriminate H.
Defined.


(** C2, as stated, fails: two change events for version 1 are both
    accepted, and so is a change event that names no version at all. *)
Lemma two_change_events_for_one_version :
  let first := insert schema "change_event" 0 Examples.change_of_version_1 Examples.seeded in
  let second := insert schema "change_event" 1 Examples.change_of_version_1 first.2 in
  let third := insert schema "change_event" 2 [("diff", VText "orphan")] second.2 in
  first.1 = done_ok
  /\ second.1 = done_ok
  /\ third.1 = done_ok
  /\ satisfies schema third.2 = true
  /\ column_values change_event (rows_of third.2 "change_event") "document_version_id"
     = [VInt 1; VInt 1; VNull]
  /\ unique_columns change_event = ["id"].
Proof. vm_compute. repeat split. Qed.

(** C2, amended: in a store that satisfies the schema, every
    [change_event] row's [document_version_id] is NULL or the id of an
    existing [document_version] (a foreign key of the store).  That a
    version has at most one change event is not a constraint of the
    store: an insert for an existing version succeeds whenever the id
    drawn from the sequence is unused, however many change events already
    name that version. *)
Theorem change_event_version_referenced_not_unique (d : db) :
  satisfies schema d = true ->
  (forall r, In r (rows_of d "change_event") ->
     cell change_event r "document_version_id" = VNull
     \/ exists r', In r' (rows_of d "document_version")
                   /\ cell document_version r' "id"
                      = cell change_event r "document_version_id")
  /\ (forall now v,
        In (VInt v) (column_values document_version (rows_of d "document_version") "id") ->
        in_int4 (next_serial d "change_event") = true ->
        ~ In (VInt (next_serial d "change_event"))
             (column_values change_event (rows_of d "change_event") "id") ->
        exists d',
          insert schema "change_event" now [("document_version_id", VInt v)] d
          = (done_ok, d')
          /\ satisfies schema d' = true
          /\ rows_of d' "change_event"
             = rows_of d "change_event"
               ++ [[VInt (next_serial d "change_event"); VInt v; VNull; VNull; VTime now]]).
Proof.
  intros Hs. split.
  - intros r Hr.
    apply (reference_ok_row schema d "document_version" "id" document_version);
      [reflexivity |].
    apply (table_ok_reference schema d change_event
             (Column "document_version_id" INT [REFERENCES "document_version" "id"])).
    + apply satisfies_table_ok; [done | simpl; auto 10].
    + simpl; auto 10.
    + simpl; auto 10.
    + done.
  - intros now v Hv Hrange Hfresh.
    destruct (insert_for_version_succeeds change_event d now v
                (or_introl eq_refl) Hs Hv Hrange Hfresh) as [Hins Hnew].
    eexists. split; [exact Hins | split; [exact Hnew |]].
    apply (rows_of_add_row_same d change_event).
Qed.

Lemma change_event_version_referenced_not_unique_witness :
  exists d',
    insert schema "change_event" 5 [("document_version_id", VInt 1)]
           (Examples.then_insert "change_event" Examples.change_of_version_1 Examples.seeded)
    = (done_ok, d')
    /\ satisfies schema d' = true
    /\ rows_of d' "change_event"
       = rows_of (Examples.then_insert "change_event" Examples.change_of_version_1
                    Examples.seeded) "change_event"
         ++ [[VInt 2; VInt 1; VNull; VNull; VTime 5]].
Proof.
  refine (proj2 (change_event_version_referenced_not_unique
            (Examples.then_insert "change_event" Examples.change_of_version_1
               Examples.seeded) _) 5 1 _ _ _).
  - vm_compute. reflexivity.
  - vm_compute. auto.
  - vm_compute. reflexivity.
  - vm_compute. intros [H | []]. discriminate H.
Defined.

(** C4, as stated, fails in its second half: a document of source 2
    cannot take the external id that a document of source 1 already has,
    while it can take an unused one. *)
Lemma external_id_not_shared_across_sources :
  unique_columns document = ["id"; "external_id"]
  /\ column_values document (rows_of Examples.seeded "document") "external_id"
  = [VText "ext-1"]
  /\ column_values document (rows_of Examples.seeded "document") "source_id" = [VInt 1]
  /\ (insert schema "document" 0
             [("external_id", VText "ext-1"); ("source_id", VInt 2)] Examples.seeded).1
     = failed constraint_violation
  /\ (insert schema "document" 0
             [("external_id", VText "ext-2"); ("source_id", VInt 2)] Examples.seeded).1
     = done_ok.
Proof. vm_compute. repeat split. Qed.

(** C4, amended: [document.external_id] is unique in the whole table,
    not per source.  In a store that satisfies the schema any two
    distinct document rows differ in [external_id], whatever their
    [source_id] (so in particular when they have the same [source_id]),
    and inserting a document whose [external_id] some row already has is
    refused for every [source_id]. *)
Theorem document_external_id_unique_in_table (d : db) :
  satisfies schema d = true ->
  (forall (i j : nat) (r1 r2 : row),
      rows_of d "document" !! i = Some r1 ->
      rows_of d "document" !! j = Some r2 ->
      i <> j ->
      cell document r1 "external_id" <> cell document r2 "external_id")
  /\ (forall r now source_id,
        In r (rows_of d "document") ->
        (insert schema "document" now
                [("external_id", cell document r "external_id"); ("source_id", source_id)]
                d).1
        = failed constraint_violation).
Proof.
  assert (Huniq : forall d0, satisfies schema d0 = true ->
            forall (i j : nat) (r1 r2 : row),
              rows_of d0 "document" !! i = Some r1 ->
              rows_of d0 "document" !! j = Some r2 ->
              i <> j ->
              cell document r1 "external_id" <> cell document r2 "external_id").
  { intros d0 Hs i j r1 r2 Hi Hj Hne Heq. apply Hne.
    pose proof (satisfies_table_ok _ _ document Hs ltac:(simpl; auto 10)) as Hok.
    assert (Hin1 : In r1 (rows_of d0 "document")).
    { apply list_elem_of_In, list_elem_of_lookup. eauto. }
    pose proof (table_ok_row _ _ _ _ Hok Hin1) as Hrow.
    pose proof (table_ok_unique _ _ _ (Column "external_id" TEXT [UNIQUE; NOT_NULL]) Hok
                  ltac:(simpl; auto 10) eq_refl) as Hu.
    simpl in Hu.
    apply (unique_values_lookup _ Hu i j (cell document r1 "external_id")).
    - unfold column_values. by rewrite lookup_map, Hi.
    - unfold column_values. rewrite lookup_map, Hj. simpl. by rewrite Heq.
    - pose proof (row_ok_cell _ _ Hrow 1%nat _ eq_refl) as Hcell.
      unfold cell. simpl. unfold cell_ok in Hcell. simpl in Hcell.
      intros Hnull. rewrite Hnull in Hcell. discriminate. }
  intros Hs. split; [by apply Huniq |].
  intros r now source_id Hr.
  apply list_elem_of_In, list_elem_of_lookup in Hr as [i Hi].
  unfold insert.
  change (find_table schema "document") with (Some document).
  cbv iota beta.
  replace (columns_exist document _) with true by reflexivity.
  replace (columns_distinct _) with true by reflexivity.
  cbv iota beta zeta. simpl negb. cbv iota.
  destruct (satisfies schema (add_row d document now _)) eqn:Hnew; [| reflexivity].
  exfalso.
  apply (Huniq _ Hnew i (length (rows_of d "document")) r
           (map (insert_cell d "document" now
                   [("external_id", cell document r "external_id");
                    ("source_id", source_id)]) (tbl_columns document))).
  - rewrite (rows_of_add_row_same d document). by apply lookup_app_l_Some.
  - rewrite (rows_of_add_row_same d document).
    rewrite lookup_app_r by done. by rewrite Nat.sub_diag.
  - apply lookup_lt_Some in Hi. lia.
  - reflexivity.
Qed.

Lemma document_external_id_unique_in_table_witness :
  (insert schema "document" 7
          [("external_id", cell document [VInt 1; VText "ext-1"; VInt 1; VTime 0] "external_id");
           ("source_id", VInt 2)] Examples.seeded).1
  = failed constraint_violation.
Proof.
  refine (proj2 (document_external_id_unique_in_table Examples.seeded _)
            [VInt 1; VText "ext-1"; VInt 1; VTime 0] 7 (VInt 2) _).
  - vm_compute. reflexivity.
  - vm_compute. auto.
Defined.


(** Every foreign key of the schema is enforced: the referencing cell is
    NULL or equals the referenced cell of some row of the target table. *)
Lemma foreign_keys_enforced (d : db) (t c t' c' : string) (tb tb' : table) (r : row) :
  satisfies schema d = true ->
  In (t, c, (t', c')) (foreign_keys schema) ->
  find_table schema t = Some tb -> find_table schema t' = Some tb' ->
  In r (rows_of d t) ->
  cell tb r c = VNull \/ exists r', In r' (rows_of d t') /\ cell tb' r' c' = cell tb r c.
Proof.
  intros Hs Hfk Htb Htb' Hr.
  apply (reference_ok_row schema d t' c' tb' _ Htb').
  simpl in Hfk.
  repeat match type of Hfk with
         | _ \/ _ => destruct Hfk as [Hfk | Hfk]
         | False => destruct Hfk
         end;
    injection Hfk as <- <- <- <-; injection Htb as <-.
  - apply (table_ok_reference schema d document
             (Column "source_id" INT [REFERENCES "source" "id"]));
      [apply satisfies_table_ok | | |]; simpl; auto 10.
  - apply (table_ok_reference schema d document_version
             (Column "document_id" INT [REFERENCES "document" "id"]));
      [apply satisfies_table_ok | | |]; simpl; auto 10.
  - apply (table_ok_reference schema d change_event
             (Column "document_version_id" INT [REFERENCES "document_version" "id"]));
      [apply satisfies_table_ok | | |]; simpl; auto 10.
  - apply (table_ok_reference schema d change_event
             (Column "prev_version_id" INT [REFERENCES "document_version" "id"]));
      [apply satisfies_table_ok | | |]; simpl; auto 10.
  - apply (table_ok_reference schema d impact_assessment
             (Column "document_version_id" INT [REFERENCES "document_version" "id"]));
      [apply satisfies_table_ok | | |]; simpl; auto 10.
Qed.

(** C5: the foreign keys of the persisted layout are exactly
    [document.source_id -> source.id],
    [document_version.document_id -> document.id],
    [change_event.document_version_id -> document_version.id],
    [change_event.prev_version_id -> document_version.id] and
    [impact_assessment.document_version_id -> document_version.id];
    [prev_version_id] is nullable: it carries no NOT NULL, and a change
    event with a NULL [prev_version_id] is accepted. *)
Theorem foreign_keys_of_the_layout :
  foreign_keys schema
  = [ ("document", "source_id", ("source", "id"));
      ("document_version", "document_id", ("document", "id"));
      ("change_event", "document_version_id", ("document_version", "id"));
      ("change_event", "prev_version_id", ("document_version", "id"));
      ("impact_assessment", "document_version_id", ("document_version", "id")) ]
  /\ (is_not_null <$> find_column change_event "prev_version_id") = Some false
  /\ (insert schema "change_event" 0 Examples.change_of_version_1 Examples.seeded).1
     = done_ok
  /\ column_values change_event
       (rows_of (insert schema "change_event" 0 Examples.change_of_version_1
                   Examples.seeded).2 "change_event") "prev_version_id"
     = [VNull].
Proof. vm_compute. repeat split. Qed.

(** C7, as stated, fails: the stored [actions] of an assessment is one
    text, not a sequence of strings, the column being declared TEXT; and
    the table has no [diff] column. *)
Lemma stored_actions_is_one_text :
  let d := Examples.then_insert "impact_assessment" Examples.assess_version_1
             Examples.seeded in
  satisfies schema d = true
  /\ column_values impact_assessment (rows_of d "impact_assessment") "actions"
     = [VText "Review policy; notify legal"]
  /\ is_text_sequence (VText "Review policy; notify legal") = false
  /\ (col_type <$> find_column impact_assessment "actions") = Some TEXT
  /\ find_column impact_assessment "diff" = None.
Proof. vm_compute. repeat split. Qed.

Lemma mapM_as_string (l : list Js.json) (k : list string) :
  mapM (fun x => ImpactPage.as_string (Some x)) l = Some k -> l = Js.JStr <$> k.
Proof.
  rewrite mapM_Some. induction 1 as [|x y l k Hxy _ IH]; [done |].
  destruct x; try discriminate Hxy. injection Hxy as ->. simpl. by rewrite IH.
Qed.

Lemma map_throwing_inr (l : list Js.json) :
  Js.map_throwing (fun x => inr x) l = inr l.
Proof. induction l as [|x l IH]; simpl; [done | by rewrite IH]. Qed.

(** C7, amended: a payload of the shape of the [Assessment] interface,
    [{id, summary, actions[], diff?}] with [actions] a sequence of
    strings, is rendered by the impact page with its actions in order.
    The persisted [impact_assessment] row is not of that shape: its
    [actions] column has type TEXT, so the stored value is NULL or one
    text and never a sequence of strings, and [diff] is not a column of
    [impact_assessment] but of [change_event]. *)
Theorem assessment_payload_shape_and_stored_actions :
  (forall payload a,
      ImpactPage.as_Assessment payload = Some a ->
      ImpactPage.render payload
      = ImpactPage.page (Some (Js.JStr (ImpactPage.summary a)))
                        (Js.JStr <$> ImpactPage.actions a)
                        (Js.JStr <$> ImpactPage.diff a))
  /\ (forall d r,
        satisfies schema d = true ->
        In r (rows_of d "impact_assessment") ->
        (cell impact_assessment r "actions" = VNull
         \/ exists s, cell impact_assessment r "actions" = VText s)
        /\ is_text_sequence (cell impact_assessment r "actions") = false)
  /\ (col_type <$> find_column impact_assessment "actions") = Some TEXT
  /\ find_column impact_assessment "diff" = None
  /\ (col_type <$> find_column change_event "diff") = Some TEXT.
Proof.
  split; [| split; [| by vm_compute]].
  - intros payload a Ha. destruct payload; try discriminate Ha.
    unfold ImpactPage.as_Assessment in Ha.
    destruct (Js.own_field fields "id") as [[]|] eqn:Hid; try discriminate Ha.
    destruct (Js.own_field fields "summary") as [[]|] eqn:Hsum; try discriminate Ha.
    destruct (Js.own_field fields "actions") as [[]|] eqn:Hact; try discriminate Ha.
    simpl in Ha.
    destruct (mapM _ elems) as [k|] eqn:Hk; try discriminate Ha.
    apply mapM_as_string in Hk. subst elems.
    unfold ImpactPage.render. simpl. rewrite Hsum, Hact. simpl.
    rewrite map_throwing_inr.
    destruct (Js.own_field fields "diff") as [[]|] eqn:Hdiff; try discriminate Ha;
      simpl in Ha; injection Ha as <-; reflexivity.
  - intros d r Hs Hr.
    pose proof (satisfies_table_ok _ _ impact_assessment Hs ltac:(simpl; auto 10)) as Hok.
    pose proof (row_ok_cell _ _ (table_ok_row _ _ _ _ Hok Hr) 3%nat _ eq_refl) as Hcell.
    unfold cell. simpl. unfold cell_ok in Hcell. simpl in Hcell.
    destruct (nth 3 r VNull); try discriminate Hcell; simpl; eauto.
Qed.

Lemma assessment_payload_shape_and_stored_actions_witness :
  ImpactPage.render Examples.an_assessment
  = ImpactPage.page (Some (Js.JStr "Section 3 amended"))
                    [Js.JStr "Review policy"; Js.JStr "Notify legal"]
                    (Some (Js.JStr "- old / + new"))
  /\ is_text_sequence
       (cell impact_assessment
             [VInt 1; VInt 1; VText "Section 3 amended";
              VText "Review policy; notify legal"; VNull; VTime 0] "actions") = false.
Proof.
  split.
  - exact (proj1 assessment_payload_shape_and_stored_actions Examples.an_assessment
             {| ImpactPage.id := Js.number 1;
                ImpactPage.summary := "Section 3 amended";
                ImpactPage.actions := ["Review policy"; "Notify legal"];
                ImpactPage.diff := Some "- old / + new" |} eq_refl).
  - refine (proj2 (proj1 (proj2 assessment_payload_shape_and_stored_actions)
             (Examples.then_insert "impact_assessment" Examples.assess_version_1
                Examples.seeded) _ _ _)).
    + vm_compute. reflexivity.
    + vm_compute. auto.
Defined.

End Store.

(** * Properties of the pages *)

Section Pages.
Import Js Browser.

Lemma eqb_nonempty (token : string) : token <> "" -> String.eqb token "" = false.
Proof. intros H. by apply String.eqb_neq. Qed.

Lemma HomePage_effect_token ls API_URL server token :
  getItem ls "token" = Some token -> token <> "" ->
  HomePage.effect ls API_URL server =
    {| HomePage.trace := [fetch (HomePage.the_request API_URL token)];
       HomePage.changes := HomePage.settle (server (HomePage.the_request API_URL token)) |}.
Proof.
  intros Hls Hne. unfold HomePage.effect. rewrite Hls, (eqb_nonempty _ Hne). reflexivity.
Qed.

Lemma HomePage_part_000_effect_token ls API_URL server token :
  getItem ls "token" = Some token -> token <> "" ->
  HomePage_part_000.effect ls API_URL server =
    {| HomePage.trace := [fetch (HomePage_part_000.the_request API_URL token)];
       HomePage.changes :=
         HomePage_part_000.settle (server (HomePage_part_000.the_request API_URL token)) |}.
Proof.
  intros Hls Hne. unfold HomePage_part_000.effect.
  rewrite Hls, (eqb_nonempty _ Hne). reflexivity.
Qed.

Lemma ImpactPage_effect_token ls API_URL id server token :
  getItem ls "token" = Some token -> token <> "" ->
  ImpactPage.effect ls API_URL id server =
    {| ImpactPage.trace := [fetch (ImpactPage.the_request API_URL id token)];
       ImpactPage.assessment :=
         ImpactPage.settle (server (ImpactPage.the_request API_URL id token)) |}.
Proof.
  intros Hls Hne. unfold ImpactPage.effect.
  rewrite Hls, (eqb_nonempty _ Hne). reflexivity.
Qed.

Lemma or_else_truthy (v : json) (b : json) :
  truthy (Some v) = true -> or_else (Some v) b = v.
Proof. intros H. unfold or_else. by rewrite H. Qed.

Lemma or_else_falsy (v : jsval) (b : json) :
  truthy v = false -> or_else v b = b.
Proof. intros H. unfold or_else. destruct v; [by rewrite H | done]. Qed.

End Pages.

(** C6, as stated, fails on [frontend/app/page.tsx]: given a bare list
    as the response body, that HomePage renders the empty list, since it
    reads the body's [items] field. *)
Lemma bare_list_not_rendered_by_page_tsx :
  HomePage.changes
    (HomePage.effect Examples.logged_in None (Examples.replies Examples.bare_list))
  = Js.JArr []
  /\ Examples.bare_list <> Js.JArr []
  /\ HomePage.render
       (HomePage.changes
          (HomePage.effect Examples.logged_in None (Examples.replies Examples.bare_list)))
     = HomePage.no_changes_found.
Proof. split; [reflexivity | split; [discriminate | reflexivity]]. Qed.

(** C6, amended: with a non-empty token stored and a response whose body
    parses to [body], the HomePage of [unnamed/part_000] takes [body]
    itself as the list of changes, while the HomePage of
    [frontend/app/page.tsx] takes the [items] field of [body] when [body]
    is an object whose [items] is truthy, and the empty list otherwise
    (so also when [body] is a bare list). *)
Theorem changes_read_from_body_or_from_items
  (ls : gmap string string) (token : string) (API_URL : option string)
  (server : Browser.request -> Browser.settled) (status : Z) (body : Js.json) :
  Browser.getItem ls "token" = Some token ->
  token <> "" ->
  (server (HomePage_part_000.the_request API_URL token) = Browser.responded status (Some body) ->
   HomePage.changes (HomePage_part_000.effect ls API_URL server) = body)
  /\
  (server (HomePage.the_request API_URL token) = Browser.responded status (Some body) ->
   (forall fs items, body = Js.JObj fs -> Js.own_field fs "items" = Some items ->
                     Js.truthy (Some items) = true ->
                     HomePage.changes (HomePage.effect ls API_URL server) = items)
   /\ (forall fs, body = Js.JObj fs -> Js.truthy (Js.own_field fs "items") = false ->
                  HomePage.changes (HomePage.effect ls API_URL server) = Js.JArr [])
   /\ ((forall fs, body <> Js.JObj fs) ->
       HomePage.changes (HomePage.effect ls API_URL server) = Js.JArr [])).
Proof.
  intros Hls Hne. split.
  - intros Hsrv. rewrite (HomePage_part_000_effect_token _ _ _ _ Hls Hne). simpl.
    by rewrite Hsrv.
  - intros Hsrv. rewrite (HomePage_effect_token _ _ _ _ Hls Hne). simpl.
    rewrite Hsrv. simpl. repeat split.
    + intros fs items -> Hf Ht. simpl. rewrite Hf. by apply or_else_truthy.
    + intros fs -> Hf. simpl. by apply or_else_falsy.
    + intros Hno. destruct body; try reflexivity. by destruct (Hno fields).
Qed.

Lemma changes_read_from_body_or_from_items_witness :
  HomePage.changes
    (HomePage_part_000.effect Examples.logged_in None (Examples.replies Examples.bare_list))
  = Examples.bare_list
  /\ HomePage.changes
       (HomePage.effect Examples.logged_in None (Examples.replies Examples.wrapped_list))
     = Examples.bare_list
  /\ HomePage.changes
       (HomePage.effect Examples.logged_in None (Examples.replies Examples.bare_list))
     = Js.JArr [].
Proof.
  assert (Hne : "secret" <> "") by discriminate.
  split; [| split].
  - refine (proj1 (changes_read_from_body_or_from_items Examples.logged_in "secret" None
                     (Examples.replies Examples.bare_list) 200 Examples.bare_list
                     eq_refl Hne) eq_refl).
  - refine (proj1 (proj2 (changes_read_from_body_or_from_items Examples.logged_in "secret" None
                     (Examples.replies Examples.wrapped_list) 200 Examples.wrapped_list
                     eq_refl Hne) eq_refl) _ Examples.bare_list eq_refl eq_refl eq_refl).
  - refine (proj2 (proj2 (proj2 (changes_read_from_body_or_from_items Examples.logged_in
                     "secret" None (Examples.replies Examples.bare_list) 200
                     Examples.bare_list eq_refl Hne) eq_refl)) _).
    intros fs; discriminate.
Defined.

(** C8: the login page grants access exactly when the entered password
    equals [NEXT_PUBLIC_APP_PASSWORD]; in that case it stores the password
    itself under the key [token], and every API request a page then
    issues carries that password unchanged as its credential: as the
    value of [X-API-Key] ([frontend/app/page.tsx]) or as the bearer token
    of [Authorization] ([unnamed/part_000] and the impact page).  A page
    issues its request whenever the password is not the empty string. *)
Theorem login_stores_password_sent_as_credential
  (APP_PASSWORD : option string) (password : string) (ls : gmap string string) :
  (LoginPage.grants_access (LoginPage.submit APP_PASSWORD password ls).2 = true
   <-> Some password = APP_PASSWORD)
  /\
  (Some password = APP_PASSWORD ->
   let ls' := (LoginPage.submit APP_PASSWORD password ls).1 in
   Browser.getItem ls' "token" = Some password
   /\ (forall k, k <> "token" -> Browser.getItem ls' k = Browser.getItem ls k)
   /\ forall API_URL id server,
       Browser.fetches (HomePage.trace (HomePage.effect ls' API_URL server)) =
         (if String.eqb password "" then []
          else [ {| Browser.req_url := Browser.env_or_empty API_URL +:+ "/v1/changes";
                    Browser.req_headers := [("X-API-Key", password)] |} ])
       /\ Browser.fetches (HomePage.trace (HomePage_part_000.effect ls' API_URL server)) =
         (if String.eqb password "" then []
          else [ {| Browser.req_url := Browser.env_or_empty API_URL +:+ "/v1/changes";
                    Browser.req_headers := [("Authorization", "Bearer " +:+ password)] |} ])
       /\ Browser.fetches (ImpactPage.trace (ImpactPage.effect ls' API_URL id server)) =
         (if String.eqb password "" then []
          else [ {| Browser.req_url :=
                      Browser.env_or_empty API_URL +:+ "/v1/impacts/" +:+ Js.interpolate id;
                    Browser.req_headers := [("Authorization", "Bearer " +:+ password)] |} ]))
  /\
  (Some password <> APP_PASSWORD ->
   LoginPage.submit APP_PASSWORD password ls
   = (ls, [Browser.preventDefault; Browser.alert "Invalid password"])).
Proof.
  unfold LoginPage.submit. split; [| split].
  - case_bool_decide as Hpw; simpl; split; auto; discriminate.
  - intros Hpw. rewrite bool_decide_eq_true_2 by done. simpl.
    assert (Htok : Browser.getItem (Browser.setItem ls "token" password) "token"
                   = Some password).
    { unfold Browser.getItem, Browser.setItem. apply lookup_insert_eq. }
    split; [exact Htok | split].
    + intros k Hk. unfold Browser.getItem, Browser.setItem. by apply lookup_insert_ne.
    + intros API_URL id server.
      unfold HomePage.effect, HomePage_part_000.effect, ImpactPage.effect.
      rewrite Htok. destruct (String.eqb password ""); simpl; auto.
  - intros Hpw. by rewrite bool_decide_eq_false_2.
Qed.

Lemma login_stores_password_sent_as_credential_witness :
  Browser.getItem (LoginPage.submit (Some "secret") "secret" ∅).1 "token" = Some "secret"
  /\ LoginPage.submit (Some "secret") "wrong" ∅
     = (∅, [Browser.preventDefault; Browser.alert "Invalid password"]).
Proof.
  split.
  - exact (proj1 (proj1 (proj2 (login_stores_password_sent_as_credential
                                  (Some "secret") "secret" ∅)) eq_refl)).
  - refine (proj2 (proj2 (login_stores_password_sent_as_credential
                            (Some "secret") "wrong" ∅)) _).
    discriminate.
Defined.

(** C9: when [localStorage] has no [token] entry, the effect of the
    changes list (both HomePage files) and of the impact page sets the
    location to [/login] and does nothing else: no request is issued and
    the component state keeps its initial value. *)
Theorem no_fetch_without_token
  (ls : gmap string string) (API_URL : option string) (id : option string)
  (server : Browser.request -> Browser.settled) :
  Browser.getItem ls "token" = None ->
  HomePage.effect ls API_URL server
  = {| HomePage.trace := [Browser.set_location_href "/login"];
       HomePage.changes := HomePage.initial_changes |}
  /\ HomePage_part_000.effect ls API_URL server
     = {| HomePage.trace := [Browser.set_location_href "/login"];
          HomePage.changes := HomePage.initial_changes |}
  /\ ImpactPage.effect ls API_URL id server
     = {| ImpactPage.trace := [Browser.set_location_href "/login"];
          ImpactPage.assessment := ImpactPage.initial_assessment |}
  /\ Browser.fetches (HomePage.trace (HomePage.effect ls API_URL server)) = []
  /\ Browser.fetches (HomePage.trace (HomePage_part_000.effect ls API_URL server)) = []
  /\ Browser.fetches (ImpactPage.trace (ImpactPage.effect ls API_URL id server)) = [].
Proof.
  intros Hls.
  unfold HomePage.effect, HomePage_part_000.effect, ImpactPage.effect.
  rewrite Hls. repeat split.
Qed.

Lemma no_fetch_without_token_witness :
  Browser.fetches
    (HomePage.trace (HomePage.effect ∅ None (Examples.replies Examples.bare_list))) = []
  /\ Browser.fetches
       (ImpactPage.trace
          (ImpactPage.effect ∅ None (Some "7") (Examples.replies Examples.an_assessment))) = [].
Proof.
  pose proof (no_fetch_without_token ∅ None (Some "7")
                (Examples.replies Examples.bare_list) eq_refl) as H1.
  pose proof (no_fetch_without_token ∅ None (Some "7")
                (Examples.replies Examples.an_assessment) eq_refl) as H2.
  split.
  - exact (proj1 (proj2 (proj2 (proj2 H1)))).
  - exact (proj2 (proj2 (proj2 (proj2 (proj2 H2))))).
Defined.

(** C10, as stated, fails: with the same stored token and the same
    response body, the two HomePage files send different headers and
    compute different lists. *)
Lemma home_pages_differ :
  let a := HomePage.effect Examples.logged_in None (Examples.replies Examples.bare_list) in
  let b := HomePage_part_000.effect Examples.logged_in None
             (Examples.replies Examples.bare_list) in
  map Browser.req_headers (Browser.fetches (HomePage.trace a)) = [[("X-API-Key", "secret")]]
  /\ map Browser.req_headers (Browser.fetches (HomePage.trace b))
     = [[("Authorization", "Bearer secret")]]
  /\ HomePage.changes a = Js.JArr []
  /\ HomePage.changes b = Examples.bare_list
  /\ a <> b.
Proof. repeat split. discriminate. Qed.

(** C10, amended: the two HomePage files agree on when they redirect to
    [/login] instead of fetching, on the URL they request, and on the
    empty list when the fetch is rejected or the body does not parse.
    They differ in the credential header ([X-API-Key: token] in
    [frontend/app/page.tsx], [Authorization: Bearer token] in
    [unnamed/part_000]) and in where the list is read: page.tsx computes
    on a body [{items: L}], for truthy [L], the list that part_000
    computes on the body [L]. *)
Theorem home_pages_agree_up_to_header_and_wrapping
  (ls : gmap string string) (API_URL : option string)
  (server server' : Browser.request -> Browser.settled) :
  let a := HomePage.effect ls API_URL server in
  let b := HomePage_part_000.effect ls API_URL server' in
  (HomePage.trace a = [Browser.set_location_href "/login"]
   <-> HomePage.trace b = [Browser.set_location_href "/login"])
  /\ map Browser.req_url (Browser.fetches (HomePage.trace a))
     = map Browser.req_url (Browser.fetches (HomePage.trace b))
  /\ (forall token, Browser.getItem ls "token" = Some token -> token <> "" ->
        map Browser.req_headers (Browser.fetches (HomePage.trace a))
        = [[("X-API-Key", token)]]
        /\ map Browser.req_headers (Browser.fetches (HomePage.trace b))
           = [[("Authorization", "Bearer " +:+ token)]])
  /\ HomePage.settle Browser.fetch_rejected = HomePage_part_000.settle Browser.fetch_rejected
  /\ (forall status,
        HomePage.settle (Browser.responded status None)
        = HomePage_part_000.settle (Browser.responded status None))
  /\ (forall status status' L, Js.truthy (Some L) = true ->
        HomePage.settle (Browser.responded status (Some (Js.JObj [("items", L)])))
        = HomePage_part_000.settle (Browser.responded status' (Some L))).
Proof.
  simpl. unfold HomePage.effect, HomePage_part_000.effect.
  assert (Hwrap : forall status status' L, Js.truthy (Some L) = true ->
            HomePage.settle (Browser.responded status (Some (Js.JObj [("items", L)])))
            = HomePage_part_000.settle (Browser.responded status' (Some L))).
  { intros status status' L HL. simpl. by apply or_else_truthy. }
  destruct (Browser.getItem ls "token") as [token|] eqn:Hls;
    [destruct (String.eqb token "") eqn:Hempty |]; simpl.
  - split; [done |]. split; [done |]. split; [| done].
    intros t [= <-] Hne. by rewrite (eqb_nonempty _ Hne) in Hempty.
  - split; [split; discriminate |]. split; [done |]. split; [| done].
    by intros t [= <-] _.
  - split; [done |]. split; [done |]. split; [| done].
    intros t. discriminate.
Qed.

Lemma home_pages_agree_up_to_header_and_wrapping_witness :
  map Browser.req_headers
      (Browser.fetches
         (HomePage.trace
            (HomePage.effect Examples.logged_in None (Examples.replies Examples.wrapped_list))))
  = [[("X-API-Key", "secret")]]
  /\ HomePage.settle (Browser.responded 200 (Some Examples.wrapped_list))
     = HomePage_part_000.settle (Browser.responded 200 (Some Examples.bare_list)).
Proof.
  pose proof (home_pages_agree_up_to_header_and_wrapping Examples.logged_in None
                (Examples.replies Examples.wrapped_list)
                (Examples.replies Examples.bare_list)) as H.
  simpl in H. destruct H as (_ & _ & Hhdr & _ & _ & Hwrap).
  split.
  - assert (Hne : "secret" <> "") by discriminate.
    exact (proj1 (Hhdr "secret" eq_refl Hne)).
  - exact (Hwrap 200 200 Examples.bare_list eq_refl).
Defined.

(** * Properties of the change detector *)

Section ChangeDetection.
Import Pipeline.

Variable fingerprint : string -> string.
Variable diff : option string -> string -> string.
Variable malformed : string -> bool.
Variable first_version_emits : bool.

Lemma find_snoc_new {A : Type} (f : A -> bool) (l : list A) (x : A) :
  find f l = None -> f x = true -> find f (l ++ [x]) = Some x.
Proof.
  intros Hl Hx. induction l as [|y l IH]; simpl in *; [by rewrite Hx |].
  destruct (f y); [discriminate | by apply IH].
Qed.

Lemma same_key_refl (d : Document) :
  same_key (doc_source_id d) (doc_external_id d) d = true.
Proof. unfold same_key. by rewrite Z.eqb_refl, String.eqb_refl. Qed.

(** [ensureDocument] is a get-or-create: asking again returns the same
    document and changes nothing. *)
Lemma ensureDocument_idempotent (sourceId : Z) (externalId : string) (s : store) :
  ensureDocument sourceId externalId (ensureDocument sourceId externalId s).2
  = ensureDocument sourceId externalId s.
Proof.
  unfold ensureDocument at 2 3.
  destruct (find _ (documents s)) as [d|] eqn:Hfind; simpl.
  - unfold ensureDocument. by rewrite Hfind.
  - unfold ensureDocument. simpl.
    rewrite (find_snoc_new _ _ _ Hfind); [done |].
    apply (same_key_refl (Build_Document (next_document_id s) externalId sourceId)).
Qed.

Lemma ensureDocument_ledgers (sourceId : Z) (externalId : string) (s : store) :
  versions (ensureDocument sourceId externalId s).2 = versions s
  /\ events (ensureDocument sourceId externalId s).2 = events s.
Proof. unfold ensureDocument. by destruct (find _ (documents s)). Qed.

Lemma ensureDocument_found (sourceId : Z) (externalId : string) (s : store) (d : Document) :
  find (same_key sourceId externalId) (documents s) = Some d ->
  ensureDocument sourceId externalId s = (d, s).
Proof. intros H. unfold ensureDocument. by rewrite H. Qed.

Lemma latestVersion_snoc (documentId : Z) (v : DocumentVersion) (s s' : store) :
  versions s' = versions s ++ [v] -> ver_document_id v = documentId ->
  latestVersion documentId s' = Some v.
Proof.
  intros Hv Hd. unfold latestVersion. rewrite Hv, List.filter_app. simpl.
  unfold of_document at 2. rewrite Hd, Z.eqb_refl. apply last_snoc.
Qed.

Lemma latestVersion_same_versions (documentId : Z) (s s' : store) :
  versions s' = versions s -> latestVersion documentId s' = latestVersion documentId s.
Proof. intros H. unfold latestVersion. by rewrite H. Qed.

(** One round of the detector on a document whose latest version does
    not have the hash: exactly one version is appended, and a change
    event that points at it exactly when the document had a version
    before or the first version emits one.  The append never conflicts
    when nothing runs between the read and the write. *)
Lemma detect_changed (attempts : nat) (document : Document) (content hash : string)
      (now : Z) (s : store) :
  let latest := latestVersion (doc_id document) s in
  let v := Build_DocumentVersion (next_version_id s) (doc_id document) hash content now in
  let e := Build_ChangeEvent (next_event_id s) (ver_id v) (ver_id <$> latest)
                             (diff (ver_content <$> latest) content) now in
  let out := detect diff first_version_emits (S attempts) document content hash now s in
  ver_content_hash <$> latest <> Some hash ->
  documents out.2 = documents s
  /\ versions out.2 = versions s ++ [v]
  /\ (if bool_decide (is_Some latest) || first_version_emits
      then out.1 = inr (changed (Some (ev_id e))) /\ events out.2 = events s ++ [e]
      else out.1 = inr (changed None) /\ events out.2 = events s).
Proof.
  simpl. intros Hh. rewrite bool_decide_eq_false_2 by done.
  unfold appendVersion. rewrite bool_decide_eq_true_2 by done.
  by destruct (bool_decide (is_Some (latestVersion (doc_id document) s))
               || first_version_emits).
Qed.

Lemma ensureDocument_finds (sourceId : Z) (externalId : string) (s s0 : store)
      (document : Document) :
  ensureDocument sourceId externalId s = (document, s0) ->
  find (same_key sourceId externalId) (documents s0) = Some document.
Proof.
  unfold ensureDocument.
  destruct (find _ (documents s)) as [d|] eqn:Hfind; intros [= <- <-]; [done |].
  simpl. apply (find_snoc_new _ _ _ Hfind).
  apply (same_key_refl (Build_Document (next_document_id s) externalId sourceId)).
Qed.

Lemma detect_unchanged (attempts : nat) (document : Document) (content hash : string)
      (now : Z) (s : store) (latest : DocumentVersion) :
  latestVersion (doc_id document) s = Some latest ->
  ver_content_hash latest = hash ->
  detect diff first_version_emits (S attempts) document content hash now s
  = (inr unchanged, s).
Proof.
  intros Hl Hh. simpl. rewrite Hl. simpl. by rewrite bool_decide_eq_true_2 by congruence.
Qed.

(** A snapshot that fails validation is rejected before anything is
    read or written. *)
Lemma ingest_rejects_malformed (sourceId : Z) (externalId content : string) (now : Z)
      (s : store) :
  malformed content = true ->
  ingest fingerprint diff malformed first_version_emits sourceId externalId content now s
  = (inl ValidationError, s).
Proof. intros Hm. unfold ingest. by rewrite Hm. Qed.

(** C3, amended: ingesting the same content twice in a row for the same
    document, [latest] being the document's latest version before the
    first call.  A payload that validation rejects is never ingested:
    both calls fail with ValidationError and write nothing.  For a
    payload that passes validation the second call is a no-op that
    returns "unchanged", and over the two calls: when [latest] has the
    fingerprint of the content, the first call returns "unchanged" too
    and no version and no change event is appended (the store is left as
    it was when the document was already known); when there is no
    [latest] or its hash differs, exactly one DocumentVersion is
    appended, for this document, with this content and its fingerprint,
    together with exactly one ChangeEvent that refers to it if the
    document had a version before or first versions emit one, and with
    no ChangeEvent otherwise. *)
Theorem ingest_same_content_twice
  (sourceId : Z) (externalId content : string) (now now' : Z) (s : store) :
  let first :=
    ingest fingerprint diff malformed first_version_emits sourceId externalId content now s in
  let second :=
    ingest fingerprint diff malformed first_version_emits sourceId externalId content now'
           first.2 in
  let document := (ensureDocument sourceId externalId s).1 in
  let latest := latestVersion (doc_id document) s in
  (malformed content = true ->
   first = (inl ValidationError, s) /\ second = (inl ValidationError, s))
  /\ (malformed content = false ->
      second = (inr unchanged, first.2)
      /\ (ver_content_hash <$> latest = Some (fingerprint content) ->
          first.1 = inr unchanged
          /\ versions second.2 = versions s
          /\ events second.2 = events s
          /\ (is_Some (find (same_key sourceId externalId) (documents s)) ->
              second.2 = s))
      /\ (ver_content_hash <$> latest <> Some (fingerprint content) ->
          exists v,
            versions second.2 = versions s ++ [v]
            /\ ver_document_id v = doc_id document
            /\ ver_content v = content
            /\ ver_content_hash v = fingerprint content
            /\ (if bool_decide (is_Some latest) || first_version_emits
                then exists e,
                    events second.2 = events s ++ [e]
                    /\ first.1 = inr (changed (Some (ev_id e)))
                    /\ ev_document_version_id e = ver_id v
                    /\ ev_prev_version_id e = ver_id <$> latest
                    /\ ev_diff e = diff (ver_content <$> latest) content
                else events second.2 = events s
                     /\ first.1 = inr (changed None)))).
Proof.
  cbv zeta. split.
  - intros Hm. rewrite (ingest_rejects_malformed _ _ _ _ _ Hm). simpl.
    by rewrite (ingest_rejects_malformed _ _ _ _ _ Hm).
  - intros Hm. unfold ingest. rewrite Hm.
    destruct (ensureDocument sourceId externalId s) as [doc s0] eqn:He.
    pose proof (ensureDocument_finds _ _ _ _ _ He) as Hfind0.
    destruct (ensureDocument_ledgers sourceId externalId s) as [Hvs Hes].
    rewrite He in Hvs, Hes. simpl in Hvs, Hes. cbn [fst snd].
    pose proof (latestVersion_same_versions (doc_id doc) s s0 Hvs) as Hlat0.
    change retry_bound with 3%nat.
    destruct (decide (ver_content_hash <$> latestVersion (doc_id doc) s
                      = Some (fingerprint content))) as [Heq | Hne].
    + destruct (latestVersion (doc_id doc) s) as [latest|] eqn:Hl; [| discriminate].
      injection Heq as Heq.
      rewrite (detect_unchanged 2 doc content _ now s0 latest Hlat0 Heq). cbn [fst snd].
      rewrite (ensureDocument_found _ _ _ _ Hfind0).
      rewrite (detect_unchanged 2 doc content _ now' s0 latest Hlat0 Heq). cbn [fst snd].
      split; [done |]. split; [| intros Hno; destruct Hno; simpl; by f_equal].
      intros _. split; [done |]. split; [done |]. split; [done |].
      intros [d0 Hd0]. rewrite (ensureDocument_found _ _ _ _ Hd0) in He.
      by injection He as _ ->.
    + rewrite <- Hlat0 in Hne.
      destruct (detect_changed 2 doc content (fingerprint content) now s0 Hne)
        as (Hdocs & Hvers & Hev).
      destruct (detect diff first_version_emits 3 doc content (fingerprint content) now s0)
        as [r1 s1] eqn:Hd.
      cbn [fst snd] in *.
      assert (Hfind1 : find (same_key sourceId externalId) (documents s1) = Some doc)
        by (by rewrite Hdocs).
      rewrite (ensureDocument_found _ _ _ _ Hfind1).
      set (v := Build_DocumentVersion (next_version_id s0) (doc_id doc)
                                      (fingerprint content) content now) in *.
      assert (Hl1 : latestVersion (doc_id doc) s1 = Some v)
        by (by apply (latestVersion_snoc _ _ s0)).
      rewrite (detect_unchanged 2 doc content (fingerprint content) now' s1 v Hl1 eq_refl).
      cbn [fst snd].
      split; [done |]. split; [by rewrite <- Hlat0; intros Heq; destruct (Hne Heq) |].
      intros _. exists v. rewrite Hvers, Hvs.
      do 4 (split; [reflexivity |]).
      rewrite <- Hlat0.
      destruct (bool_decide (is_Some (latestVersion (doc_id doc) s0)) || first_version_emits).
      * destruct Hev as [Hr1 He1]. eexists. rewrite He1, Hes.
        split; [reflexivity |]. by split.
      * destruct Hev as [Hr1 He1]. by rewrite He1, Hes.
Qed.

End ChangeDetection.

(** C3, as stated, fails for a payload that validation rejects (the
    empty content): both calls fail with ValidationError and the two
    calls produce no DocumentVersion at all. *)
Lemma rejected_snapshot_is_never_ingested :
  let first :=
    Pipeline.ingest Examples.toy_fingerprint Examples.toy_diff Examples.empty_content false
                    1 "ext-1" "" 10 Examples.fresh_store in
  let second :=
    Pipeline.ingest Examples.toy_fingerprint Examples.toy_diff Examples.empty_content false
                    1 "ext-1" "" 20 first.2 in
  first.1 = inl Pipeline.ValidationError
  /\ second.1 = inl Pipeline.ValidationError
  /\ Pipeline.versions second.2 = []
  /\ Pipeline.events second.2 = [].
Proof. vm_compute. repeat split. Qed.

Lemma ingest_same_content_twice_witness :
  let first :=
    Pipeline.ingest Examples.toy_fingerprint Examples.toy_diff Examples.empty_content false
                    1 "ext-1" "Rule A v1" 10 Examples.fresh_store in
  let second :=
    Pipeline.ingest Examples.toy_fingerprint Examples.toy_diff Examples.empty_content false
                    1 "ext-1" "Rule A v1" 20 first.2 in
  second = (inr Pipeline.unchanged, first.2)
  /\ exists v,
      Pipeline.versions second.2 = Pipeline.versions Examples.fresh_store ++ [v]
      /\ Pipeline.ver_content v = "Rule A v1".
Proof.
  destruct (proj2 (ingest_same_content_twice Examples.toy_fingerprint Examples.toy_diff
                     Examples.empty_content false 1 "ext-1" "Rule A v1" 10 20
                     Examples.fresh_store) eq_refl) as (Hsecond & _ & Hnew).
  split; [exact Hsecond |].
  destruct (Hnew ltac:(discriminate)) as (v & Hv & _ & Hc & _).
  exists v. split; [exact Hv | exact Hc].
Defined.

(** * Further properties of the pages *)

Section PageBehaviour.
Import Js Browser.

Lemma get_field (x : json) (k : string) : x <> JNull -> get (Some x) k = inr (field x k).
Proof. intros Hx. by destruct x. Qed.

Lemma item_of_Change (x : json) (c : HomePage.Change) :
  HomePage.as_Change x = Some c -> HomePage.item x = inr (HomePage.entry c).
Proof.
  destruct x; try discriminate. unfold HomePage.as_Change, HomePage.item. simpl.
  destruct (own_field fields "id") as [[]|]; try discriminate.
  destruct (own_field fields "summary") as [[]|]; try discriminate.
  by intros [= <-].
Qed.

Lemma map_throwing_item_Change (l : list json) (cs : list HomePage.Change) :
  mapM HomePage.as_Change l = Some cs ->
  map_throwing HomePage.item l = inr (map HomePage.entry cs).
Proof.
  rewrite mapM_Some. induction 1 as [|x c l cs Hxc _ IH]; simpl; [done |].
  by rewrite (item_of_Change x c Hxc), IH.
Qed.

Lemma map_throwing_item_null (l : list json) :
  In JNull l -> map_throwing HomePage.item l = inl TypeError.
Proof.
  induction l as [|x l IH]; intros Hin; [destruct Hin |].
  simpl. destruct Hin as [-> | Hin]; [done |].
  destruct (HomePage.item x) as [[] | y]; [done |].
  rewrite (IH Hin). reflexivity.
Qed.

End PageBehaviour.

(** Each page effect does exactly one thing.  When the stored token is
    missing or is the empty string, all three effects set the location
    to [/login] and leave the component state at its initial value;
    otherwise each issues one request carrying the token and does not
    redirect. *)
Theorem effect_redirects_or_fetches_once
  (ls : gmap string string) (API_URL id : option string)
  (server : Browser.request -> Browser.settled) :
  ((Browser.getItem ls "token" = None \/ Browser.getItem ls "token" = Some "")
   /\ HomePage.effect ls API_URL server
      = {| HomePage.trace := [Browser.set_location_href "/login"];
           HomePage.changes := HomePage.initial_changes |}
   /\ HomePage_part_000.effect ls API_URL server
      = {| HomePage.trace := [Browser.set_location_href "/login"];
           HomePage.changes := HomePage.initial_changes |}
   /\ ImpactPage.effect ls API_URL id server
      = {| ImpactPage.trace := [Browser.set_location_href "/login"];
           ImpactPage.assessment := ImpactPage.initial_assessment |})
  \/
  (exists token,
      Browser.getItem ls "token" = Some token /\ token <> ""
      /\ HomePage.trace (HomePage.effect ls API_URL server)
         = [Browser.fetch (HomePage.the_request API_URL token)]
      /\ HomePage.trace (HomePage_part_000.effect ls API_URL server)
         = [Browser.fetch (HomePage_part_000.the_request API_URL token)]
      /\ ImpactPage.trace (ImpactPage.effect ls API_URL id server)
         = [Browser.fetch (ImpactPage.the_request API_URL id token)]).
Proof.
  unfold HomePage.effect, HomePage_part_000.effect, ImpactPage.effect.
  destruct (Browser.getItem ls "token") as [token|] eqn:Hls.
  - destruct (String.eqb token "") eqn:Hempty.
    + apply String.eqb_eq in Hempty as ->. left. repeat split. by right.
    + apply String.eqb_neq in Hempty. right. exists token. repeat split; done.
  - left. repeat split. by left.
Qed.

(** Logging in with the empty password, when the configured password is
    the empty string, is accepted and stores the empty token; every page
    then treats that token as missing and sends the browser back to
    [/login] without a request. *)
Theorem empty_password_login_bounces
  (ls : gmap string string) (API_URL id : option string)
  (server : Browser.request -> Browser.settled) :
  let after := LoginPage.submit (Some "") "" ls in
  LoginPage.grants_access after.2 = true
  /\ Browser.getItem after.1 "token" = Some ""
  /\ HomePage.trace (HomePage.effect after.1 API_URL server)
     = [Browser.set_location_href "/login"]
  /\ HomePage.trace (HomePage_part_000.effect after.1 API_URL server)
     = [Browser.set_location_href "/login"]
  /\ ImpactPage.trace (ImpactPage.effect after.1 API_URL id server)
     = [Browser.set_location_href "/login"].
Proof.
  simpl.
  assert (Htok : Browser.getItem (Browser.setItem ls "token" "") "token" = Some "").
  { unfold Browser.getItem, Browser.setItem. apply lookup_insert_eq. }
  unfold HomePage.effect, HomePage_part_000.effect, ImpactPage.effect.
  rewrite Htok. repeat split.
Qed.

(** The list page of [unnamed/part_000], from reply to what the
    component returns.  A rejected fetch or an unparsable body gives the
    list without entries.  A body that is not an array (an object such as
    an error payload, [null], a string, a number) makes the component
    throw, whatever the status, and so does an array with a [null]
    element.  For an array whose elements have the shape of the [Change]
    interface (a number [id] and a string [summary]) the component
    returns one entry per element, in order, with that [id] and that
    [summary] as its text. *)
Theorem part_000_list_from_reply (status : Z) :
  HomePage_part_000.render (HomePage_part_000.settle Browser.fetch_rejected)
  = HomePage.change_list []
  /\ HomePage_part_000.render (HomePage_part_000.settle (Browser.responded status None))
     = HomePage.change_list []
  /\ (forall body, (forall l, body <> Js.JArr l) ->
        HomePage_part_000.render
          (HomePage_part_000.settle (Browser.responded status (Some body)))
        = HomePage.render_throws)
  /\ (forall l changes, mapM HomePage.as_Change l = Some changes ->
        HomePage_part_000.render
          (HomePage_part_000.settle (Browser.responded status (Some (Js.JArr l))))
        = HomePage.change_list (map HomePage.entry changes))
  /\ (forall l, In Js.JNull l ->
        HomePage_part_000.render
          (HomePage_part_000.settle (Browser.responded status (Some (Js.JArr l))))
        = HomePage.render_throws).
Proof.
  split; [done |]. split; [done |]. split; [| split].
  - intros body Hb. simpl. unfold HomePage_part_000.render.
    destruct body; try reflexivity. by destruct (Hb elems).
  - intros l changes Hl. simpl. unfold HomePage_part_000.render. simpl.
    by rewrite (map_throwing_item_Change l changes Hl).
  - intros l Hl. simpl. unfold HomePage_part_000.render. simpl.
    by rewrite (map_throwing_item_null l Hl).
Qed.

Lemma part_000_list_from_reply_witness :
  HomePage_part_000.render
    (HomePage_part_000.settle
       (Browser.responded 401 (Some (Js.JObj [("detail", Js.JStr "Invalid API key")]))))
  = HomePage.render_throws
  /\ HomePage_part_000.render
       (HomePage_part_000.settle (Browser.responded 200 (Some Examples.bare_list)))
     = HomePage.change_list
         [(Some (Js.JNum (Js.number 1)), Some (Js.JStr "Rule A amended"))]
  /\ HomePage_part_000.render
       (HomePage_part_000.settle (Browser.responded 200 (Some (Js.JArr [Js.JNull]))))
     = HomePage.render_throws.
Proof.
  pose proof (part_000_list_from_reply 401) as (_ & _ & H401 & _ & _).
  pose proof (part_000_list_from_reply 200) as (_ & _ & _ & Hlist & Hnull).
  split; [| split].
  - apply H401. intros l. discriminate.
  - exact (Hlist [Examples.one_change]
             [HomePage.Build_Change (Js.number 1) "Rule A amended"] eq_refl).
  - apply (Hnull [Js.JNull]). by left.
Defined.

(** The list page of [frontend/app/page.tsx], from reply to what the
    component returns.  It returns "No changes found", and does not
    throw, when the fetch is rejected, when the body does not parse, when
    the body is not an object, and when the body's [items] is missing or
    falsy.  When [items] is an array whose elements have the shape of the
    [Change] interface (a number [id] and a string [summary]) it returns
    "No changes found" for the empty array and otherwise one entry per
    element, in order, with that [id] and that [summary] as its text. *)
Theorem page_tsx_list_from_reply (status : Z) :
  HomePage.render (HomePage.settle Browser.fetch_rejected) = HomePage.no_changes_found
  /\ HomePage.render (HomePage.settle (Browser.responded status None))
     = HomePage.no_changes_found
  /\ (forall body, (forall fs, body <> Js.JObj fs) ->
        HomePage.render (HomePage.settle (Browser.responded status (Some body)))
        = HomePage.no_changes_found)
  /\ (forall fs, Js.truthy (Js.own_field fs "items") = false ->
        HomePage.render (HomePage.settle (Browser.responded status (Some (Js.JObj fs))))
        = HomePage.no_changes_found)
  /\ (forall fs l changes, Js.own_field fs "items" = Some (Js.JArr l) ->
        mapM HomePage.as_Change l = Some changes ->
        HomePage.render (HomePage.settle (Browser.responded status (Some (Js.JObj fs))))
        = match changes with
          | [] => HomePage.no_changes_found
          | _ => HomePage.change_list (map HomePage.entry changes)
          end).
Proof.
  split; [done |]. split; [done |]. split; [| split].
  - intros body Hb. simpl. destruct body; try reflexivity. by destruct (Hb fields).
  - intros fs Hf. simpl. by rewrite or_else_falsy.
  - intros fs l changes Hf Hl. simpl. rewrite Hf. simpl.
    unfold HomePage.render, Js.length_is_zero, Js.array_map.
    rewrite (map_throwing_item_Change l changes Hl).
    apply mapM_Some in Hl. by destruct Hl.
Qed.

Lemma page_tsx_list_from_reply_witness :
  HomePage.render
    (HomePage.settle
       (Browser.responded 401 (Some (Js.JObj [("detail", Js.JStr "Invalid API key")]))))
  = HomePage.no_changes_found
  /\ HomePage.render (HomePage.settle (Browser.responded 200 (Some Examples.bare_list)))
     = HomePage.no_changes_found
  /\ HomePage.render (HomePage.settle (Browser.responded 200 (Some Examples.wrapped_list)))
     = HomePage.change_list
         [(Some (Js.JNum (Js.number 1)), Some (Js.JStr "Rule A amended"))].
Proof.
  pose proof (page_tsx_list_from_reply 401) as (_ & _ & _ & H401 & _).
  pose proof (page_tsx_list_from_reply 200) as (_ & _ & Hbare & _ & Hlist).
  split; [| split].
  - apply H401. reflexivity.
  - apply Hbare. intros fs. discriminate.
  - exact (Hlist [("items", Examples.bare_list)] [Examples.one_change]
             [HomePage.Build_Change (Js.number 1) "Rule A amended"] eq_refl eq_refl).
Defined.

(** On a list that is not empty the two HomePage files render the same
    view (the same entries, or both throw); on the empty list
    [frontend/app/page.tsx] shows "No changes found" where
    [unnamed/part_000] shows a list without entries. *)
Theorem home_page_renders_agree_on_non_empty_lists :
  (forall l, l <> [] ->
     HomePage.render (Js.JArr l) = HomePage_part_000.render (Js.JArr l))
  /\ HomePage.render (Js.JArr []) = HomePage.no_changes_found
  /\ HomePage_part_000.render (Js.JArr []) = HomePage.change_list [].
Proof.
  split; [| split; reflexivity].
  intros [|x l] Hl; [done |]. reflexivity.
Qed.

Lemma home_page_renders_agree_on_non_empty_lists_witness :
  HomePage.render Examples.bare_list = HomePage_part_000.render Examples.bare_list.
Proof.
  apply (proj1 home_page_renders_agree_on_non_empty_lists [Examples.one_change]).
  discriminate.
Defined.

(** The impact page, from state to what the component returns.  For a
    falsy assessment ([null] after a rejected fetch or an unparsable
    body, but also [false], [0] or the empty string) it returns
    "Loading...".  For a truthy assessment whose [actions] is not an
    array the component throws.  For a truthy assessment whose [actions]
    is an array, with summary, diff and every action a primitive value
    (a string, a number, a boolean, [null] or [undefined]), it returns
    the page with that summary, those actions in order and that diff as
    the children of its elements. *)
Theorem impact_page_view_of_assessment (a : Js.json) :
  (Js.truthy (Some a) = false -> ImpactPage.render a = ImpactPage.loading)
  /\ (Js.truthy (Some a) = true ->
      forall l, Js.field a "actions" = Some (Js.JArr l) ->
                Js.primitive (Js.field a "summary") = true ->
                Forall (fun x => Js.primitive (Some x) = true) l ->
                Js.primitive (Js.field a "diff") = true ->
                ImpactPage.render a
                = ImpactPage.page (Js.field a "summary") l (Js.field a "diff"))
  /\ (Js.truthy (Some a) = true ->
      (forall l, Js.field a "actions" <> Some (Js.JArr l)) ->
      ImpactPage.render a = ImpactPage.render_throws)
  /\ ImpactPage.render (ImpactPage.settle Browser.fetch_rejected) = ImpactPage.loading
  /\ (forall status,
        ImpactPage.render (ImpactPage.settle (Browser.responded status None))
        = ImpactPage.loading).
Proof.
  assert (Hnn : Js.truthy (Some a) = true -> a <> Js.JNull) by (by intros Ht ->).
  split; [| split; [| split; [| split; reflexivity]]].
  - intros Ht. unfold ImpactPage.render. by rewrite Ht.
  - intros Ht l Hl _ _ _. unfold ImpactPage.render. rewrite Ht. simpl negb. cbv iota.
    rewrite !get_field by auto. rewrite Hl. simpl. by rewrite map_throwing_inr.
  - intros Ht Hl. unfold ImpactPage.render. rewrite Ht. simpl negb. cbv iota.
    rewrite !get_field by auto.
    destruct (Js.field a "actions") as [[]|] eqn:Hact; try reflexivity.
    by destruct (Hl elems).
Qed.

Lemma impact_page_view_of_assessment_witness :
  ImpactPage.render (Js.JStr "") = ImpactPage.loading
  /\ ImpactPage.render Examples.an_assessment
     = ImpactPage.page (Some (Js.JStr "Section 3 amended"))
                       [Js.JStr "Review policy"; Js.JStr "Notify legal"]
                       (Some (Js.JStr "- old / + new"))
  /\ ImpactPage.render (Js.JObj [("detail", Js.JStr "Invalid API key")])
     = ImpactPage.render_throws.
Proof.
  split; [| split].
  - exact (proj1 (impact_page_view_of_assessment (Js.JStr "")) eq_refl).
  - refine (proj1 (proj2 (impact_page_view_of_assessment Examples.an_assessment)) eq_refl
              [Js.JStr "Review policy"; Js.JStr "Notify legal"] eq_refl eq_refl _ eq_refl).
    repeat constructor.
  - refine (proj1 (proj2 (proj2 (impact_page_view_of_assessment
                     (Js.JObj [("detail", Js.JStr "Invalid API key")])))) eq_refl _).
    intros l. discriminate.
Defined.

(** * Further properties of the store *)

Section StoreBehaviour.
Import Sql Schema.

Local Arguments value_eqb : simpl never.

Ltac split_in H :=
  simpl in H;
  repeat match type of H with
         | _ \/ _ => destruct H as [H | H]
         | False => destruct H
         end.

Lemma find_given (given : list (string * value)) (c : string) (v : value) :
  NoDup (map fst given) -> In (c, v) given ->
  find (fun kv => String.eqb (fst kv) c) given = Some (c, v).
Proof.
  induction given as [|[k w] given IH]; intros Hnd Hin; [destruct Hin |].
  simpl in *. apply NoDup_cons in Hnd as [Hk Hnd].
  destruct Hin as [[= -> ->] | Hin].
  - by rewrite String.eqb_refl.
  - destruct (String.eqb k c) eqn:Hkc; [| by apply IH].
    apply String.eqb_eq in Hkc as ->. exfalso. apply Hk.
    apply list_elem_of_In, in_map_iff. by exists (c, v).
Qed.

Lemma insert_failure_keeps_rows (t : string) (now : Z) (given : list (string * value))
      (d : db) :
  (insert schema t now given d).1 <> done_ok ->
  db_rows (insert schema t now given d).2 = db_rows d.
Proof.
  unfold insert. destruct (find_table schema t) as [tb|]; [| done].
  destruct (columns_exist tb given); [| done].
  destruct (columns_distinct given); [| done]. simpl.
  by destruct (satisfies schema (add_row d tb now given)).
Qed.

Lemma existsb_filter_false {A : Type} (f p : A -> bool) (l : list A) :
  existsb f l = false -> existsb f (List.filter p l) = false.
Proof.
  induction l as [|x l IH]; simpl; [done |].
  intros H. apply orb_false_iff in H as [Hx Hl].
  destruct (p x); simpl; [by rewrite Hx, IH | by apply IH].
Qed.

Lemma unique_values_filter (f : row -> value) (p : row -> bool) (l : list row) :
  unique_values (map f l) = true -> unique_values (map f (List.filter p l)) = true.
Proof.
  induction l as [|x l IH]; simpl; [done |].
  intros H. apply andb_true_iff in H as [Hx Hl].
  destruct (p x); simpl; [| by apply IH].
  rewrite (IH Hl), andb_true_r.
  destruct (is_null (f x)); [done |]. simpl in *.
  apply negb_true_iff in Hx. apply negb_true_iff.
  revert Hx. clear. induction l as [|y l IH]; simpl; [done |].
  intros H. apply orb_false_iff in H as [Hy Hl].
  destruct (p y); simpl; [by rewrite Hy, IH | by apply IH].
Qed.

Lemma forallb_filter_true {A : Type} (f p : A -> bool) (l : list A) :
  forallb f l = true -> forallb f (List.filter p l) = true.
Proof.
  rewrite !forallb_forall. intros H x Hx. apply filter_In in Hx as [Hx _]. auto.
Qed.

(** Removing rows from a table keeps the table's verdict, as long as the
    tables it references are untouched. *)
Lemma table_ok_filter (sch : list table) (d d' : db) (tb : table) (p : row -> bool) :
  table_ok sch d tb = true ->
  rows_of d' (tbl_name tb) = List.filter p (rows_of d (tbl_name tb)) ->
  (forall c target, In c (tbl_columns tb) -> In target (references c) ->
                    rows_of d' (fst target) = rows_of d (fst target)) ->
  table_ok sch d' tb = true.
Proof.
  intros Hok Hrows Href. unfold table_ok in *.
  apply andb_true_iff in Hok as [Hrs Hcs]. rewrite Hrows.
  apply andb_true_iff. split; [by apply forallb_filter_true |].
  rewrite forallb_forall in Hcs. apply forallb_forall. intros c Hc.
  specialize (Hcs c Hc). unfold column_ok in *. rewrite Hrows.
  apply andb_true_iff in Hcs as [Hu Hf]. unfold column_values in *.
  apply andb_true_iff. split.
  - destruct (is_unique c); [simpl in * | done]. by apply unique_values_filter.
  - rewrite forallb_forall in Hf. apply forallb_forall. intros target Ht.
    specialize (Hf target Ht).
    rewrite forallb_forall in Hf. apply forallb_forall. intros v Hv.
    rewrite (reference_ok_same_rows sch d d') by (by apply (Href c)).
    apply Hf. apply in_map_iff in Hv as (r & <- & Hr).
    apply filter_In in Hr as [Hr _]. apply in_map_iff. eauto.
Qed.

Lemma rows_of_set_same (d : db) (t : string) (rs : list row) :
  rows_of {| db_rows := <[t := rs]> (db_rows d); db_seq := db_seq d |} t = rs.
Proof. unfold rows_of. simpl. by rewrite lookup_insert_eq. Qed.

Lemma rows_of_set_other (d : db) (t t0 : string) (rs : list row) :
  t0 <> t ->
  rows_of {| db_rows := <[t := rs]> (db_rows d); db_seq := db_seq d |} t0 = rows_of d t0.
Proof. intros Hne. unfold rows_of. simpl. by rewrite lookup_insert_ne. Qed.


(** In a store that satisfies the schema the [id] of every row of every
    table is a non-null 4-byte integer, and no two rows of a table have
    the same [id]. *)
Theorem primary_keys_identify_rows (d : db) (tb : table) :
  satisfies schema d = true -> In tb schema ->
  (forall r, In r (rows_of d (tbl_name tb)) ->
     exists n, cell tb r "id" = VInt n /\ in_int4 n = true)
  /\ (forall (i j : nat) (r1 r2 : row),
        rows_of d (tbl_name tb) !! i = Some r1 ->
        rows_of d (tbl_name tb) !! j = Some r2 ->
        cell tb r1 "id" = cell tb r2 "id" -> i = j).
Proof.
  intros Hs Htb. split.
  - intros r Hr.
    apply (primary_key_not_null d tb (tl (tbl_columns tb)) r Hs Htb); [| done].
    split_in Htb; by subst tb.
  - apply (primary_key_unique d tb (tl (tbl_columns tb)) Hs Htb).
    split_in Htb; by subst tb.
Qed.

Lemma primary_keys_identify_rows_witness :
  exists n, cell document_version [VInt 1; VInt 1; VText "h1"; VText "Rule A v1"; VTime 0] "id"
            = VInt n /\ in_int4 n = true.
Proof.
  refine (proj1 (primary_keys_identify_rows Examples.seeded document_version _ _) _ _).
  - vm_compute. reflexivity.
  - simpl. auto 10.
  - vm_compute. auto.
Defined.

(** Every foreign key of the schema holds in a store that satisfies it:
    a value found in the referencing column is NULL or is found in the
    referenced column. *)
Theorem every_reference_resolves (d : db) (t c t' c' : string) (tb tb' : table) (v : value) :
  satisfies schema d = true ->
  In (t, c, (t', c')) (foreign_keys schema) ->
  find_table schema t = Some tb -> find_table schema t' = Some tb' ->
  In v (column_values tb (rows_of d t) c) ->
  v = VNull \/ In v (column_values tb' (rows_of d t') c').
Proof.
  intros Hs Hfk Htb Htb' Hv. unfold column_values in Hv.
  apply in_map_iff in Hv as (r & <- & Hr).
  destruct (foreign_keys_enforced d t c t' c' tb tb' r Hs Hfk Htb Htb' Hr)
    as [Hnull | (r' & Hr' & Heq)]; [by left | right].
  unfold column_values. apply in_map_iff. eauto.
Qed.

Lemma every_reference_resolves_witness :
  VInt 1 = VNull
  \/ In (VInt 1) (column_values document (rows_of Examples.seeded "document") "id").
Proof.
  refine (every_reference_resolves Examples.seeded "document_version" "document_id"
            "document" "id" document_version document (VInt 1) _ _ eq_refl eq_refl _).
  - vm_compute. reflexivity.
  - simpl. auto 10.
  - vm_compute. auto.
Defined.

(** An insert that gives a referencing column an integer absent from
    the referenced column is refused, for every foreign key of the
    schema, and leaves the rows of the store as they were. *)
Theorem insert_with_dangling_reference_refused
  (d : db) (t c t' c' : string) (tb' : table) (now : Z)
  (given : list (string * value)) (n : Z) :
  satisfies schema d = true ->
  In (t, c, (t', c')) (foreign_keys schema) ->
  find_table schema t' = Some tb' ->
  In (c, VInt n) given ->
  ~ In (VInt n) (column_values tb' (rows_of d t') c') ->
  (insert schema t now given d).1 <> done_ok
  /\ db_rows (insert schema t now given d).2 = db_rows d.
Proof.
  intros Hs Hfk Htb' Hgiven Habsent.
  assert (Hfail : (insert schema t now given d).1 <> done_ok);
    [| split; [done | by apply insert_failure_keeps_rows]].
  unfold insert.
  destruct (find_table schema t) as [tb|] eqn:Htb; [| done].
  destruct (columns_exist tb given); [| done].
  destruct (columns_distinct given) eqn:Hnd; [| done]. simpl.
  destruct (satisfies schema (add_row d tb now given)) eqn:Hnew; [| done]. exfalso.
  apply bool_decide_eq_true_1 in Hnd.
  pose proof (find_given given c (VInt n) Hnd Hgiven) as Hfind.
  assert (Hname : tbl_name tb = t).
  { split_in Hfk; injection Hfk as <- <- <- <-; by injection Htb as <-. }
  assert (Hne : t' <> tbl_name tb).
  { rewrite Hname. split_in Hfk; by injection Hfk as <- <- <- <-. }
  set (r := map (insert_cell d (tbl_name tb) now given) (tbl_columns tb)).
  assert (Hr : In r (rows_of (add_row d tb now given) t)).
  { rewrite <- Hname, rows_of_add_row_same. apply in_app_iff. right. by left. }
  assert (Hcell : cell tb r c = VInt n).
  { subst r. split_in Hfk; injection Hfk as <- <- <- <-; injection Htb as <-;
      unfold cell; simpl; unfold insert_cell; simpl; by rewrite Hfind. }
  destruct (foreign_keys_enforced _ t c t' c' tb tb' r Hnew Hfk Htb Htb' Hr)
    as [Hnull | (r' & Hr' & Heq)].
  - congruence.
  - rewrite rows_of_add_row_other in Hr' by done.
    apply Habsent. unfold column_values. apply in_map_iff. exists r'.
    split; [congruence | done].
Qed.

Lemma insert_with_dangling_reference_refused_witness :
  (insert schema "document" 3
          [("external_id", VText "ext-9"); ("source_id", VInt 7)] Examples.seeded).1
  <> done_ok
  /\ db_rows (insert schema "document" 3
                     [("external_id", VText "ext-9"); ("source_id", VInt 7)]
                     Examples.seeded).2
     = db_rows Examples.seeded.
Proof.
  refine (insert_with_dangling_reference_refused Examples.seeded "document" "source_id"
            "source" "id" source 3 _ 7 _ _ eq_refl _ _).
  - vm_compute. reflexivity.
  - simpl. auto 10.
  - simpl. auto.
  - vm_compute. intros [H | [H | []]]; discriminate H.
Defined.

(** A row that another row still references cannot be deleted: for every
    foreign key of the schema, [DELETE] on the referenced table by the
    referenced value is refused with a constraint violation and the
    store is left as it was. *)
Theorem delete_of_referenced_row_refused
  (d : db) (t c t' c' : string) (tb : table) (r : row) :
  satisfies schema d = true ->
  In (t, c, (t', c')) (foreign_keys schema) ->
  find_table schema t = Some tb ->
  In r (rows_of d t) -> cell tb r c <> VNull ->
  delete_where schema t' c' (cell tb r c) d = (failed constraint_violation, d).
Proof.
  intros Hs Hfk Htb Hr Hv.
  assert (Htb' : exists tb', find_table schema t' = Some tb'
                            /\ is_Some (col_index (tbl_columns tb') c')
                            /\ t <> t').
  { split_in Hfk; injection Hfk as <- <- <- <-; eexists;
      (split; [reflexivity | split; [by eexists | discriminate]]). }
  destruct Htb' as (tb' & Htb' & [i Hi] & Hne).
  unfold delete_where. rewrite Htb', Hi.
  match goal with
  | |- context [satisfies schema ?x] => set (d' := x)
  end.
  cbv zeta. destruct (satisfies schema d') eqn:Hnew; [| done]. exfalso.
  assert (Hr' : In r (rows_of d' t)).
  { subst d'. by rewrite rows_of_set_other. }
  destruct (foreign_keys_enforced d' t c t' c' tb tb' r Hnew Hfk Htb Htb' Hr')
    as [Hnull | (r' & Hin & Heq)]; [done |].
  subst d'. rewrite rows_of_set_same in Hin.
  apply filter_In in Hin as [_ Hkeep].
  rewrite Heq, value_eqb_refl in Hkeep.
  destruct (cell tb r c); try discriminate Hkeep. by apply Hv.
Qed.

Lemma delete_of_referenced_row_refused_witness :
  delete_where schema "document" "id" (VInt 1) Examples.seeded
  = (failed constraint_violation, Examples.seeded).
Proof.
  refine (delete_of_referenced_row_refused Examples.seeded "document_version" "document_id"
            "document" "id" document_version
            [VInt 1; VInt 1; VText "h1"; VText "Rule A v1"; VTime 0] _ _ eq_refl _ _).
  - vm_compute. reflexivity.
  - simpl. auto 10.
  - vm_compute. auto.
  - discriminate.
Defined.

(** Rows of [change_event] and of [impact_assessment] can always be
    deleted by the value of an integer column, since no table references
    them: [DELETE ... WHERE c = n], for [c] one of the table's integer
    columns ([id], [document_version_id], [prev_version_id]), succeeds in
    every store that satisfies the schema, the store still satisfies it
    afterwards, the rows that remain are those whose [c] is not [n], and
    the other tables are untouched. *)
Theorem delete_from_leaf_table_succeeds (d : db) (tb : table) (c : string) (n : Z) :
  tb = change_event \/ tb = impact_assessment ->
  satisfies schema d = true ->
  In c (integer_columns tb) ->
  exists d',
    delete_where schema (tbl_name tb) c (VInt n) d = (done_ok, d')
    /\ satisfies schema d' = true
    /\ (forall r, In r (rows_of d' (tbl_name tb)) <->
                  In r (rows_of d (tbl_name tb)) /\ cell tb r c <> VInt n)
    /\ (forall t, t <> tbl_name tb -> rows_of d' t = rows_of d t).
Proof.
  intros Htb Hs Hc.
  assert (Hi : exists i, col_index (tbl_columns tb) c = Some i).
  { destruct Htb as [-> | ->]; split_in Hc; subst c; by eexists. }
  destruct Hi as [i Hi].
  unfold delete_where.
  replace (find_table schema (tbl_name tb)) with (Some tb)
    by (by destruct Htb as [-> | ->]).
  rewrite Hi.
  match goal with
  | |- context [satisfies schema ?x] => set (d' := x)
  end.
  cbv zeta.
  assert (Hnew : satisfies schema d' = true).
  { apply satisfies_schema in Hs as (Hs1 & Hs2 & Hs3 & Hs4 & Hs5).
    apply satisfies_schema. subst d'. clear Hc Hi.
    destruct Htb as [-> | ->].
    - repeat split.
      1-3, 5: rewrite (table_ok_same_rows schema d);
              [done | by apply rows_of_set_other |];
              intros c0 target Hc Ht; split_in Hc; subst c0; split_in Ht; subst target;
              by apply rows_of_set_other.
      apply (table_ok_filter _ d _ _ _ Hs4 (rows_of_set_same _ _ _)).
      intros c0 target Hc Ht; split_in Hc; subst c0; split_in Ht; subst target;
        by apply rows_of_set_other.
    - repeat split.
      1-4: rewrite (table_ok_same_rows schema d);
           [done | by apply rows_of_set_other |];
           intros c0 target Hc Ht; split_in Hc; subst c0; split_in Ht; subst target;
           by apply rows_of_set_other.
      apply (table_ok_filter _ d _ _ _ Hs5 (rows_of_set_same _ _ _)).
      intros c0 target Hc Ht; split_in Hc; subst c0; split_in Ht; subst target;
        by apply rows_of_set_other. }
  rewrite Hnew. exists d'. split; [done |]. split; [done |]. split.
  - intros r. subst d'. rewrite rows_of_set_same, filter_In.
    split; intros [Hr Hk]; (split; [done |]).
    + simpl in Hk. apply negb_true_iff in Hk.
      intros Heq. by rewrite Heq, value_eqb_refl in Hk.
    + simpl. apply negb_true_iff, not_true_is_false.
      intros Heq. by apply value_eqb_true in Heq.
  - intros t Ht. subst d'. by apply rows_of_set_other.
Qed.

Lemma delete_from_leaf_table_succeeds_witness :
  exists d',
    delete_where schema "impact_assessment" "document_version_id" (VInt 1)
      (Examples.then_insert "impact_assessment" Examples.assess_version_1 Examples.seeded)
    = (done_ok, d')
    /\ satisfies schema d' = true.
Proof.
  destruct (delete_from_leaf_table_succeeds
              (Examples.then_insert "impact_assessment" Examples.assess_version_1
                 Examples.seeded)
              impact_assessment "document_version_id" 1
              (or_intror eq_refl) ltac:(vm_compute; reflexivity)
              ltac:(simpl; auto)) as (d' & Hdel & Hok & _).
  exists d'. split; [exact Hdel | exact Hok].
Defined.

Lemma not_null_text_cell (d : db) (tb : table) (i : nat) (col : column) (r : row) :
  satisfies schema d = true ->
  In tb schema -> tbl_columns tb !! i = Some col ->
  col_type col = TEXT -> is_not_null col = true ->
  In r (rows_of d (tbl_name tb)) -> exists s, nth i r VNull = VText s.
Proof.
  intros Hs Htb Hcol Hty Hnn Hr.
  pose proof (table_ok_row _ _ _ _ (satisfies_table_ok _ _ _ Hs Htb) Hr) as Hrow.
  pose proof (row_ok_cell _ _ Hrow i col Hcol) as Hok.
  unfold cell_ok in Hok. rewrite Hty, Hnn in Hok.
  destruct (nth i r VNull); try discriminate Hok. eauto.
Qed.

(** The columns declared NOT NULL always hold a text in a store that
    satisfies the schema: [source.url], [document.external_id] and
    [document_version.content_hash]. *)
Theorem mandatory_columns_hold_text (d : db) :
  satisfies schema d = true ->
  (forall r, In r (rows_of d "source") -> exists s, cell source r "url" = VText s)
  /\ (forall r, In r (rows_of d "document") ->
        exists s, cell document r "external_id" = VText s)
  /\ (forall r, In r (rows_of d "document_version") ->
        exists s, cell document_version r "content_hash" = VText s).
Proof.
  intros Hs. split; [| split]; intros r Hr.
  - apply (not_null_text_cell d source 1%nat (Column "url" TEXT [NOT_NULL]) r Hs);
      simpl; auto 10.
  - apply (not_null_text_cell d document 1%nat
             (Column "external_id" TEXT [UNIQUE; NOT_NULL]) r Hs); simpl; auto 10.
  - apply (not_null_text_cell d document_version 2%nat
             (Column "content_hash" TEXT [NOT_NULL]) r Hs); simpl; auto 10.
Qed.

Lemma mandatory_columns_hold_text_witness :
  exists s, cell document_version
                 [VInt 1; VInt 1; VText "h1"; VText "Rule A v1"; VTime 0] "content_hash"
            = VText s.
Proof.
  refine (proj2 (proj2 (mandatory_columns_hold_text Examples.seeded _)) _ _).
  - vm_compute. reflexivity.
  - vm_compute. auto.
Defined.


(** A row cannot be stored without its mandatory text: an insert into
    [source] without [url], into [document] without [external_id] or into
    [document_version] without [content_hash] (the column left out, or
    given as NULL) is refused and leaves the rows of the store as they
    were. *)
Theorem insert_without_mandatory_column_refused
  (d : db) (t c : string) (now : Z) (given : list (string * value)) :
  In (t, c) [("source", "url"); ("document", "external_id");
             ("document_version", "content_hash")] ->
  (forall v, In (c, v) given -> v = VNull) ->
  (insert schema t now given d).1 <> done_ok
  /\ db_rows (insert schema t now given d).2 = db_rows d.
Proof.
  intros Htc Hgiven.
  assert (Hfail : (insert schema t now given d).1 <> done_ok);
    [| split; [done | by apply insert_failure_keeps_rows]].
  assert (Hcell : forall col, col_name col = c -> col_type col = TEXT ->
                              has_constraint DEFAULT_NOW col = false ->
                              insert_cell d t now given col = VNull).
  { intros col Hname Hty Hdef. unfold insert_cell. rewrite Hname, Hty, Hdef.
    destruct (find _ given) as [[k v]|] eqn:Hfind; [| done].
    apply find_some in Hfind as [Hin Hk]. simpl in Hk.
    apply String.eqb_eq in Hk as ->. simpl. by apply Hgiven. }
  unfold insert.
  destruct (find_table schema t) as [tb|] eqn:Htb; [| done].
  destruct (columns_exist tb given); [| done].
  destruct (columns_distinct given); [| done]. simpl.
  destruct (satisfies schema (add_row d tb now given)) eqn:Hnew; [| done]. exfalso.
  set (d' := add_row d tb now given) in *.
  assert (Hr : forall tb0, tb = tb0 ->
            In (map (insert_cell d (tbl_name tb0) now given) (tbl_columns tb0))
               (rows_of d' (tbl_name tb0))).
  { intros tb0 <-. subst d'. rewrite rows_of_add_row_same.
    apply in_app_iff. right. by left. }
  split_in Htc; injection Htc as <- <-; injection Htb as Htb.
  - destruct (not_null_text_cell d' source 1%nat (Column "url" TEXT [NOT_NULL]) _ Hnew
                ltac:(simpl; auto 10) eq_refl eq_refl eq_refl (Hr source (eq_sym Htb)))
      as [s Hs].
    simpl in Hs. by rewrite Hcell in Hs.
  - destruct (not_null_text_cell d' document 1%nat
                (Column "external_id" TEXT [UNIQUE; NOT_NULL]) _ Hnew
                ltac:(simpl; auto 10) eq_refl eq_refl eq_refl (Hr document (eq_sym Htb)))
      as [s Hs].
    simpl in Hs. by rewrite Hcell in Hs.
  - destruct (not_null_text_cell d' document_version 2%nat
                (Column "content_hash" TEXT [NOT_NULL]) _ Hnew
                ltac:(simpl; auto 10) eq_refl eq_refl eq_refl
                (Hr document_version (eq_sym Htb))) as [s Hs].
    simpl in Hs. by rewrite Hcell in Hs.
Qed.

Lemma insert_without_mandatory_column_refused_witness :
  (insert schema "document_version" 4
          [("document_id", VInt 1); ("content", VText "Rule A v2")] Examples.seeded).1
  <> done_ok.
Proof.
  refine (proj1 (insert_without_mandatory_column_refused Examples.seeded
                   "document_version" "content_hash" 4
                   [("document_id", VInt 1); ("content", VText "Rule A v2")] _ _)).
  - simpl. auto.
  - intros v [H | [H | []]]; discriminate H.
Defined.

End StoreBehaviour.

(** * Properties of the deployment script *)

(** Under [set -e] the script always starts the backend build, starts
    the frontend build exactly when the backend build exited with status
    0, and starts the services exactly when both builds exited with
    status 0.  The commands started are a prefix of the script, and the
    script exits with status 0 exactly when all three commands did. *)
Theorem deploy_stops_at_first_failure
  (world : Type) (exec : Deploy.command -> world -> Z * world) (w : world) :
  let backend := Deploy.docker_build "Dockerfile.backend" "regradar-backend" in
  let frontend := Deploy.docker_build "Dockerfile.frontend" "regradar-frontend" in
  let r1 := exec backend w in
  let r2 := exec frontend r1.2 in
  let r3 := exec Deploy.docker_compose_up_d r2.2 in
  let status := (Deploy.deploy world exec w).1.1 in
  let started := (Deploy.deploy world exec w).1.2 in
  In backend started
  /\ (In frontend started <-> r1.1 = 0)
  /\ (In Deploy.docker_compose_up_d started <-> r1.1 = 0 /\ r2.1 = 0)
  /\ (exists rest, Deploy.script = started ++ rest)
  /\ (status = 0 <-> r1.1 = 0 /\ r2.1 = 0 /\ r3.1 = 0).
Proof.
  unfold Deploy.deploy, Deploy.script. simpl.
  destruct (exec _ w) as [s1 w1]. simpl.
  destruct (Z.eqb_spec s1 0) as [-> | H1]; simpl.
  - destruct (exec _ w1) as [s2 w2]. simpl.
    destruct (Z.eqb_spec s2 0) as [-> | H2]; simpl.
    + destruct (exec _ w2) as [s3 w3]. simpl.
      destruct (Z.eqb_spec s3 0) as [-> | H3]; simpl.
      * split; [by left |]. split; [split; auto |]. split; [split; auto |].
        split; [by exists [] |]. split; auto.
      * split; [by left |]. split; [split; auto |]. split; [split; auto |].
        split; [by exists [] |]. split; [done | by intros (_ & _ & ?)].
    + split; [by left |]. split; [split; auto |].
      split; [split; [intros [H | [H | []]]; discriminate H | by intros [_ ?]] |].
      split; [by eexists [_] |]. split; [done | by intros (_ & ? & _)].
  - split; [by left |].
    split; [split; [intros [H | []]; discriminate H | done] |].
    split; [split; [intros [H | []]; discriminate H | by intros [? _]] |].
    split; [by eexists [_; _] |]. split; [done | by intros (? & _)].
Qed.
